(** * Travel destination selector: the matching loop of [travel.py]

    The development embeds the destination-matching part of [main]
    (the filters, the season and interest scores, the best-so-far loop and
    the final report) and proves the properties stated about it.

    Strings are Rocq strings read as ASCII text; Python's [str.lower] and
    [str.title] are modelled on the ASCII letters.  Scores are exact
    rationals.  A Python exception is an explicit [Raise] result. *)

From Stdlib Require Import String Ascii List Bool Arith ZArith QArith Lia Lqa.
From Stdlib Require DecimalString.
Import ListNotations.

Local Open Scope string_scope.
Local Open Scope list_scope.

(** ** Python strings: [lower] and [title] *)

Module PyStr.

Definition is_upper (c : ascii) : bool :=
  let n := nat_of_ascii c in (65 <=? n)%nat && (n <=? 90)%nat.

Definition is_lower (c : ascii) : bool :=
  let n := nat_of_ascii c in (97 <=? n)%nat && (n <=? 122)%nat.

Definition is_cased (c : ascii) : bool := is_upper c || is_lower c.

Definition to_lower (c : ascii) : ascii :=
  if is_upper c then ascii_of_nat (nat_of_ascii c + 32) else c.

Definition to_upper (c : ascii) : ascii :=
  if is_lower c then ascii_of_nat (nat_of_ascii c - 32) else c.

(** [s.lower()] *)
Fixpoint lower (s : string) : string :=
  match s with
  | EmptyString => EmptyString
  | String c s' => String (to_lower c) (lower s')
  end.

(** [s.title()]: a letter that follows a letter is lowered, any other
    letter is raised; [prev_cased] tells whether the previous character
    was a letter. *)
Fixpoint title_from (prev_cased : bool) (s : string) : string :=
  match s with
  | EmptyString => EmptyString
  | String c s' =>
      String (if prev_cased then to_lower c else to_upper c)
             (title_from (is_cased c) s')
  end.

Definition title (s : string) : string := title_from false s.

(** [x in l] for a list of strings *)
Definition mem (x : string) (l : list string) : bool :=
  existsb (String.eqb x) l.

End PyStr.

Import PyStr.

(** ** Exceptions *)

(** The three ways the matching loop can raise: [list.index] on a value
    that is not in the list, [max] of an empty sequence, and a lookup of a
    season or interest the destination does not define. *)
Inductive exn : Type :=
| IndexValueError
| MaxValueError
| LookupKeyError.

Inductive result (A : Type) : Type :=
| Ok (a : A)
| Raise (e : exn).

Arguments Ok {A} a.
Arguments Raise {A} e.

Definition bind {A B : Type} (m : result A) (k : A -> result B) : result B :=
  match m with
  | Ok a => k a
  | Raise e => Raise e
  end.

Notation "x <- m ;; k" := (bind m (fun x => k))
  (at level 61, m at next level, right associativity).

Definition of_lookup {A : Type} (o : option A) : result A :=
  match o with
  | Some a => Ok a
  | None => Raise LookupKeyError
  end.

(** ** Question tables *)

Definition CONTINENT_OPTIONS : list string :=
  ["Asia"; "Africa"; "North America"; "South America"; "Europe"; "Oceania";
   "Antarctica"].

Definition COST_OPTIONS : list string := ["$$$"; "$$"; "$"].

Definition CRIME_OPTIONS : list string := ["Low"; "Average"; "High"].

Definition CHILDREN_OPTIONS : list string := ["Yes"; "No"].

Definition SEASON_OPTIONS : list string :=
  ["Spring"; "Summer"; "Autumn"; "Winter"].

Definition CLIMATE_OPTIONS : list string :=
  ["Cold"; "Cool"; "Moderate"; "Warm"; "Hot"].

(** The keys of [INTEREST_INPUT], in order. *)
Definition INTEREST_KEYS : list string :=
  ["sports"; "wildlife"; "nature"; "historical"; "cuisine"; "adventure";
   "beach"].

(** ** Data *)

(** Modelled from the spec: the class [Destination] of module
    [destinations] is not among the sources; a destination is the record of
    what its getters return.  The two score getters are partial: a season or
    an interest the record does not define is a lookup error. *)
Record Destination : Type := {
  get_name : string;
  get_continent : string;
  get_crime : string;
  get_cost : string;
  is_kid_friendly : bool;
  get_climate : string;
  get_season_factor : string -> option Q;
  get_interest_score : string -> option Q
}.

(** The dictionaries [responses] and [interests] of [main]. [interests]
    keeps the insertion order of its items. *)
Record Responses : Type := {
  continent : list string;
  cost : string;
  crime : string;
  kids : string;
  season : list string;
  climate : string;
  interests : list (string * Z)
}.

(** ** Python built-ins used by the loop *)

(** [l.index(x)] *)
Fixpoint index (l : list string) (x : string) : result nat :=
  match l with
  | [] => Raise IndexValueError
  | y :: l' => if String.eqb y x then Ok O else i <- index l' x ;; Ok (S i)
  end.

(** [a > b] on scores *)
Definition Qgtb (a b : Q) : bool := negb (Qle_bool a b).

Section Generators.

Context {A : Type} (f : A -> result Q).

Fixpoint max_from (m : Q) (l : list A) : result Q :=
  match l with
  | [] => Ok m
  | x :: l' => v <- f x ;; max_from (if Qgtb v m then v else m) l'
  end.

(** [max(f(x) for x in l)] *)
Definition py_max (l : list A) : result Q :=
  match l with
  | [] => Raise MaxValueError
  | x :: l' => v <- f x ;; max_from v l'
  end.

Fixpoint sum_from (acc : Q) (l : list A) : result Q :=
  match l with
  | [] => Ok acc
  | x :: l' => v <- f x ;; sum_from (acc + v) l'
  end.

(** [sum(f(x) for x in l)] *)
Definition py_sum (l : list A) : result Q := sum_from 0 l.

End Generators.

(** ** The matching loop *)

(** The five filters at the head of the loop body; [Ok false] is a
    [continue]. *)
Definition is_eligible (d : Destination) (r : Responses) : result bool :=
  if negb (mem (title (get_continent d)) (continent r)) then Ok false else
  i <- index CRIME_OPTIONS (title (get_crime d)) ;;
  j <- index CRIME_OPTIONS (crime r) ;;
  if (j <? i)%nat then Ok false else
  if (String.length (cost r) <? String.length (get_cost d))%nat then Ok false else
  if String.eqb (kids r) "Yes" && negb (is_kid_friendly d) then Ok false else
  if negb (String.eqb (lower (climate r)) (get_climate d)) then Ok false else
  Ok true.

Definition season_score (d : Destination) (r : Responses) : result Q :=
  py_max (fun s => of_lookup (get_season_factor d (lower s))) (season r).

Definition interest_score (d : Destination) (r : Responses) : result Q :=
  py_sum (fun kv => v <- of_lookup (get_interest_score d (fst kv)) ;;
                    Ok (inject_Z (snd kv) * v))
         (interests r).

Definition composite_score (d : Destination) (r : Responses) : result Q :=
  s <- season_score d r ;;
  i <- interest_score d r ;;
  Ok (s * i).

(** The [else] branch of the loop body: the new best-so-far once [d] has
    passed the filters and [m] is the current match. *)
Definition challenge (m d : Destination) (r : Responses) : result Destination :=
  prev_score <- season_score m r ;;
  score <- season_score d r ;;
  prev_interest_score <- interest_score m r ;;
  interest_score <- interest_score d r ;;
  let prev_score := prev_score * prev_interest_score in
  let score := score * interest_score in
  if Qgtb score prev_score then Ok d else Ok m.

(** One iteration of [for destination in ...]. *)
Definition step (r : Responses) (match_ : option Destination) (d : Destination)
  : result (option Destination) :=
  e <- is_eligible d r ;;
  if negb e then Ok match_ else
  match match_ with
  | None => Ok (Some d)
  | Some m => m' <- challenge m d r ;; Ok (Some m')
  end.

Fixpoint main_loop (r : Responses) (match_ : option Destination)
  (catalog : list Destination) : result (option Destination) :=
  match catalog with
  | [] => Ok match_
  | d :: rest => m <- step r match_ d ;; main_loop r m rest
  end.

(** The loop from [match = None]. *)
Definition main_match (catalog : list Destination) (r : Responses)
  : result (option Destination) :=
  main_loop r None catalog.

(** ** The report *)

Definition THANKS : string :=
  "Thank you for answering all our questions. Your next travel destination is:".

(** [str(None)] *)
Definition str_None : string := "None".

(** The two [print] calls that end [main]. *)
Definition report (match_ : option Destination) : list string :=
  [THANKS;
   match match_ with
   | None => str_None
   | Some m => get_name m
   end].

Definition main_output (catalog : list Destination) (r : Responses)
  : result (list string) :=
  m <- main_match catalog r ;; Ok (report m).

(** ** Multiple-choice input *)

(** The body of the [try] of [input_multiple_numeric_options], from the
    integers read from the comma-separated answer: each one must be a valid
    option number, and the options are collected in the order typed.
    [None] is the retry. *)
Fixpoint collect_options (options : list string) (picks : list Z)
  : option (list string) :=
  match picks with
  | [] => Some []
  | p :: picks' =>
      if ((1 <=? p)%Z && (p <=? Z.of_nat (List.length options))%Z)%bool then
        match nth_error options (Z.to_nat (p - 1)), collect_options options picks' with
        | Some o, Some os => Some (o :: os)
        | _, _ => None
        end
      else None
  end.

(** ** Well-formed inputs *)

Definition is_nil {A : Type} (l : list A) : bool :=
  match l with [] => true | _ => false end.

Definition is_ok {A : Type} (m : result A) : bool :=
  match m with Ok _ => true | Raise _ => false end.

Definition is_some {A : Type} (o : option A) : bool :=
  match o with Some _ => true | None => false end.

(** A non-empty selection from a list of options, as the multiple-choice
    questions return it; repeated choices are allowed. *)
Definition selection_of (options l : list string) : bool :=
  negb (is_nil l) && forallb (fun x => mem x options) l.

Fixpoint keys_are (ks : list string) (kvs : list (string * Z)) : bool :=
  match ks, kvs with
  | [], [] => true
  | k :: ks', kv :: kvs' => String.eqb k (fst kv) && keys_are ks' kvs'
  | _, _ => false
  end.

(** What the question loop of [main] guarantees about its answers. *)
Definition wf_responses (r : Responses) : bool :=
  selection_of CONTINENT_OPTIONS (continent r)
  && mem (cost r) COST_OPTIONS
  && mem (crime r) CRIME_OPTIONS
  && mem (kids r) CHILDREN_OPTIONS
  && selection_of SEASON_OPTIONS (season r)
  && mem (climate r) CLIMATE_OPTIONS
  && keys_are INTEREST_KEYS (interests r)
  && forallb (fun kv => (-5 <=? snd kv)%Z && (snd kv <=? 5)%Z) (interests r).

(** A complete catalog record: a known crime level, a factor for every
    season and a score for every interest. *)
Definition complete (d : Destination) : bool :=
  is_ok (index CRIME_OPTIONS (title (get_crime d)))
  && forallb (fun s => is_some (get_season_factor d (lower s))) SEASON_OPTIONS
  && forallb (fun k => is_some (get_interest_score d k)) INTEREST_KEYS.

(** The climate of a record is stored in lower case. *)
Definition climate_normalised (d : Destination) : bool :=
  String.eqb (lower (get_climate d)) (get_climate d).

(** ** The properties in the words of the description *)

(** Equality of two labels up to letter case. *)
Definition same_label (a b : string) : Prop := lower a = lower b.

(** Position of a crime level in Low < Average < High, whatever its case. *)
Fixpoint ordinal_in (levels : list string) (x : string) : option nat :=
  match levels with
  | [] => None
  | y :: levels' =>
      if String.eqb (lower y) (lower x) then Some O
      else option_map S (ordinal_in levels' x)
  end.

Definition crime_ordinal (x : string) : option nat := ordinal_in CRIME_OPTIONS x.

(** The tier of a cost is its number of symbols. *)
Definition cost_ordinal (x : string) : nat := String.length x.

Definition traveling_with_kids (r : Responses) : Prop := kids r = "Yes".

(** The first four filters: continent, crime, cost and children. *)
Record first_four_filters (d : Destination) (r : Responses) : Prop := {
  continent_selected :
    exists c, In c (continent r) /\ same_label (get_continent d) c;
  crime_tolerated :
    exists i j, crime_ordinal (get_crime d) = Some i /\
                crime_ordinal (crime r) = Some j /\ (i <= j)%nat;
  cost_tolerated : (cost_ordinal (get_cost d) <= cost_ordinal (cost r))%nat;
  kids_welcome : traveling_with_kids r -> is_kid_friendly d = true
}.

(** The five conditions, the climates compared up to letter case. *)
Definition eligible_spec (d : Destination) (r : Responses) : Prop :=
  first_four_filters d r /\ same_label (get_climate d) (climate r).

(** The five conditions, the climate of the record compared as it is
    stored with the preferred climate in lower case. *)
Definition eligible_stored (d : Destination) (r : Responses) : Prop :=
  first_four_filters d r /\ get_climate d = lower (climate r).

(** [r[k]] for the interests dictionary *)
Fixpoint interest_of (kvs : list (string * Z)) (k : string) : option Z :=
  match kvs with
  | [] => None
  | kv :: kvs' => if String.eqb (fst kv) k then Some (snd kv) else interest_of kvs' k
  end.

(** The sum of [u k * w k] over the interest keys. *)
Definition dot_product (u : string -> Z) (w : string -> Q) : Q :=
  fold_right (fun k acc => inject_Z (u k) * w k + acc) 0 INTEREST_KEYS.

(** [q] is the greatest of the values [g s] for [s] in [l]. *)
Definition is_max_over {A : Type} (g : A -> option Q) (l : list A) (q : Q) : Prop :=
  (exists s, In s l /\ g s = Some q) /\
  (forall s v, In s l -> g s = Some v -> v <= q).

(** Order of two destinations by composite score. *)
Definition score_le (r : Responses) (e d : Destination) : Prop :=
  exists se sd, composite_score e r = Ok se /\ composite_score d r = Ok sd /\ se <= sd.

Definition score_lt (r : Responses) (e d : Destination) : Prop :=
  exists se sd, composite_score e r = Ok se /\ composite_score d r = Ok sd /\ se < sd.

Definition score_eq (r : Responses) (e d : Destination) : Prop :=
  exists se sd, composite_score e r = Ok se /\ composite_score d r = Ok sd /\ se == sd.

(** The labels of a table are written in title case. *)
Definition titled (options : list string) : Prop :=
  forall c, In c options -> title c = c.

(** [wf_responses] as a proposition. *)
Record Answers (r : Responses) : Prop := {
  continents_chosen : continent r <> [];
  continents_listed : incl (continent r) CONTINENT_OPTIONS;
  cost_listed : In (cost r) COST_OPTIONS;
  crime_listed : In (crime r) CRIME_OPTIONS;
  kids_listed : In (kids r) CHILDREN_OPTIONS;
  seasons_chosen : season r <> [];
  seasons_listed : incl (season r) SEASON_OPTIONS;
  climate_listed : In (climate r) CLIMATE_OPTIONS;
  interests_keyed : keys_are INTEREST_KEYS (interests r) = true
}.

(** [complete] as a proposition. *)
Record Complete (d : Destination) : Prop := {
  crime_known : exists i, index CRIME_OPTIONS (title (get_crime d)) = Ok i;
  seasons_defined :
    forall s, In s SEASON_OPTIONS -> exists q, get_season_factor d (lower s) = Some q;
  interests_defined :
    forall k, In k INTEREST_KEYS -> exists q, get_interest_score d k = Some q
}.

(** [d] passes the five filters. *)
Definition passes (d : Destination) (r : Responses) : Prop :=
  is_eligible d r = Ok true.

(** [w] is the first destination of [seen], in order, whose score is the
    greatest among those that pass the filters. *)
Definition first_best (r : Responses) (seen : list Destination) (w : Destination)
  : Prop :=
  exists p s, seen = p ++ w :: s /\ passes w r /\
    (forall x, In x p -> passes x r -> score_lt r x w) /\
    (forall x, In x s -> passes x r -> score_le r x w).

(** What the loop knows about [match] once it has gone through [seen]. *)
Definition best_so_far (r : Responses) (seen : list Destination)
  (m : option Destination) : Prop :=
  match m with
  | None => forall x, In x seen -> is_eligible x r = Ok false
  | Some w => first_best r seen w
  end.

(** Two answer sets that differ only in how often, and in which order, a
    continent or a season was chosen. *)
Record same_choices (r r' : Responses) : Prop := {
  same_continents : forall x, In x (continent r) <-> In x (continent r');
  same_seasons : forall x, In x (season r) <-> In x (season r');
  same_cost : cost r = cost r';
  same_crime : crime r = crime r';
  same_kids : kids r = kids r';
  same_climate : climate r = climate r';
  same_interests : interests r = interests r'
}.

(** Two outcomes of a score computation that agree: the same exception, or
    equal rationals. *)
Definition same_score (a b : result Q) : Prop :=
  match a, b with
  | Ok x, Ok y => x == y
  | Raise e, Raise e' => e = e'
  | _, _ => False
  end.

(** Answers with one entry replaced. *)
Definition with_continent (v : list string) (r : Responses) : Responses :=
  {| continent := v; cost := cost r; crime := crime r; kids := kids r;
     season := season r; climate := climate r; interests := interests r |}.

Definition with_cost (v : string) (r : Responses) : Responses :=
  {| continent := continent r; cost := v; crime := crime r; kids := kids r;
     season := season r; climate := climate r; interests := interests r |}.

Definition with_crime (v : string) (r : Responses) : Responses :=
  {| continent := continent r; cost := cost r; crime := v; kids := kids r;
     season := season r; climate := climate r; interests := interests r |}.

Definition with_kids (v : string) (r : Responses) : Responses :=
  {| continent := continent r; cost := cost r; crime := crime r; kids := v;
     season := season r; climate := climate r; interests := interests r |}.

Definition with_season (v : list string) (r : Responses) : Responses :=
  {| continent := continent r; cost := cost r; crime := crime r; kids := kids r;
     season := v; climate := climate r; interests := interests r |}.

(** The five ways of relaxing one answer. *)
Inductive relaxation (r : Responses) : Responses -> Prop :=
| raise_crime (v : string) (j j' : nat) :
    index CRIME_OPTIONS (crime r) = Ok j ->
    index CRIME_OPTIONS v = Ok j' -> (j <= j')%nat ->
    relaxation r (with_crime v r)
| raise_cost (v : string) :
    (cost_ordinal (cost r) <= cost_ordinal v)%nat ->
    relaxation r (with_cost v r)
| add_continent (c : string) :
    relaxation r (with_continent (continent r ++ [c]) r)
| add_season (s : string) :
    relaxation r (with_season (season r ++ [s]) r)
| kids_stay_home :
    kids r = "Yes" ->
    relaxation r (with_kids "No" r).

(** ** A small catalog *)

Module Sample.

Fixpoint table (kvs : list (string * Q)) (k : string) : option Q :=
  match kvs with
  | [] => None
  | kv :: kvs' => if String.eqb (fst kv) k then Some (snd kv) else table kvs' k
  end.

Definition seasons (sp su au wi : Q) : string -> option Q :=
  table [("spring", sp); ("summer", su); ("autumn", au); ("winter", wi)].

Definition scores (a b c d e f g : Q) : string -> option Q :=
  table [("sports", a); ("wildlife", b); ("nature", c); ("historical", d);
         ("cuisine", e); ("adventure", f); ("beach", g)].

Definition kyoto : Destination := {|
  get_name := "Kyoto"; get_continent := "asia"; get_crime := "low";
  get_cost := "$$"; is_kid_friendly := true; get_climate := "moderate";
  get_season_factor := seasons (6#5) (4#5) 1 (1#2);
  get_interest_score := scores 1 0 3 5 4 1 0 |}.

Definition hanoi : Destination := {|
  get_name := "Hanoi"; get_continent := "asia"; get_crime := "average";
  get_cost := "$"; is_kid_friendly := true; get_climate := "moderate";
  get_season_factor := seasons (3#5) (8#5) 1 (1#2);
  get_interest_score := scores 2 1 2 3 3 0 1 |}.

Definition denver : Destination := {|
  get_name := "Denver"; get_continent := "north america"; get_crime := "average";
  get_cost := "$$"; is_kid_friendly := false; get_climate := "moderate";
  get_season_factor := seasons 1 (6#5) 1 (3#2);
  get_interest_score := scores 4 2 5 1 2 5 (-1) |}.

Definition cairo : Destination := {|
  get_name := "Cairo"; get_continent := "africa"; get_crime := "high";
  get_cost := "$"; is_kid_friendly := false; get_climate := "hot";
  get_season_factor := seasons 1 (1#2) 1 (6#5);
  get_interest_score := scores 0 1 1 5 3 2 1 |}.

(** A record with the scores of [kyoto] under another name. *)
Definition nara : Destination := {|
  get_name := "Nara"; get_continent := "asia"; get_crime := "low";
  get_cost := "$$"; is_kid_friendly := true; get_climate := "moderate";
  get_season_factor := seasons (6#5) (4#5) 1 (1#2);
  get_interest_score := scores 1 0 3 5 4 1 0 |}.

Definition catalog : list Destination := [kyoto; hanoi; denver; cairo].

Definition tied_catalog : list Destination := [kyoto; hanoi; nara].

Definition likes (a b c d e f g : Z) : list (string * Z) :=
  [("sports", a); ("wildlife", b); ("nature", c); ("historical", d);
   ("cuisine", e); ("adventure", f); ("beach", g)].

Definition asia_trip : Responses := {|
  continent := ["Asia"]; cost := "$$"; crime := "Average"; kids := "Yes";
  season := ["Spring"; "Summer"]; climate := "Moderate";
  interests := likes 0 1 2 5 3 (-2) 0 |}.

(** Nobody in [catalog] has a cold climate. *)
Definition cold_trip : Responses := {|
  continent := ["Asia"; "Africa"]; cost := "$$$"; crime := "High"; kids := "No";
  season := ["Winter"]; climate := "Cold";
  interests := likes 0 0 0 0 0 0 0 |}.

(** Answers the question loop cannot produce: an empty selection. *)
Definition no_continent : Responses := {|
  continent := []; cost := "$$"; crime := "Average"; kids := "Yes";
  season := ["Spring"; "Summer"]; climate := "Moderate";
  interests := likes 0 1 2 5 3 (-2) 0 |}.

Definition no_season : Responses := {|
  continent := ["Asia"]; cost := "$$"; crime := "Average"; kids := "Yes";
  season := []; climate := "Moderate";
  interests := likes 0 1 2 5 3 (-2) 0 |}.

(** [asia_trip] with the first choice of each multiple question typed
    twice. *)
Definition asia_trip_twice : Responses := {|
  continent := ["Asia"; "Asia"]; cost := "$$"; crime := "Average"; kids := "Yes";
  season := ["Spring"; "Spring"; "Summer"]; climate := "Moderate";
  interests := likes 0 1 2 5 3 (-2) 0 |}.

End Sample.

(** ** The console *)

(** A value of a variable that holds a string at one time and an integer at
    another, as [response] does in the numeric questions. *)
Inductive pyval : Type :=
| PInt (z : Z)
| PStr (s : string).

(** [str(z)] for an integer *)
Definition str_int (z : Z) : string :=
  DecimalString.NilZero.string_of_int (Z.to_int z).

(** What an f-string shows for [v]. *)
Definition str (v : pyval) : string :=
  match v with
  | PInt z => str_int z
  | PStr s => s
  end.

(** The newline character inside a printed text. *)
Definition NL : string := String "010" "".

(** What the program writes: a [print] call, which ends its text with a
    newline, or the prompt of an [input] call. *)
Inductive event : Type :=
| Print (text : string)
| Prompt (text : string).

(** How a run can end early: [input] at the end of the input, or an
    exception of the matching loop. Neither is caught anywhere. *)
Inductive failure : Type :=
| EOFError
| MatchError (e : exn).

(** The outcome of a piece of the program started on the lines [stdin]
    still to be read: its value, the lines it left and what it wrote, or
    the failure and what was written before it. *)
Inductive reply (A : Type) : Type :=
| Returned (a : A) (stdin : list string) (out : list event)
| Failed (f : failure) (out : list event).

Arguments Returned {A} a stdin out.
Arguments Failed {A} f out.

Definition console (A : Type) : Type := list string -> reply A.

(** [m] once [shown] has been written. *)
Definition after {A : Type} (shown : list event) (m : reply A) : reply A :=
  match m with
  | Returned a stdin out => Returned a stdin (shown ++ out)
  | Failed f out => Failed f (shown ++ out)
  end.

Definition ret {A : Type} (a : A) : console A :=
  fun stdin => Returned a stdin [].

Definition and_then {A B : Type} (m : console A) (k : A -> console B) : console B :=
  fun stdin =>
    match m stdin with
    | Returned a stdin' out => after out (k a stdin')
    | Failed f out => Failed f out
    end.

Notation "x <~ m ;; k" := (and_then m (fun x => k))
  (at level 61, m at next level, right associativity).

(** [print(text)] *)
Definition print (text : string) : console unit :=
  fun stdin => Returned tt stdin [Print text].

(** [input(prompt)] *)
Definition input (prompt : string) : console string :=
  fun stdin =>
    match stdin with
    | [] => Failed EOFError [Prompt prompt]
    | line :: stdin' => Returned line stdin' [Prompt prompt]
    end.

(** [enumerate(l, start)] *)
Fixpoint enumerate (start : Z) (l : list string) : list (pyval * string) :=
  match l with
  | [] => []
  | x :: l' => (PInt start, x) :: enumerate (start + 1) l'
  end.

(** [s.split(sep)] for a separator of one character *)
Fixpoint split (sep : ascii) (s : string) : list string :=
  match s with
  | EmptyString => [EmptyString]
  | String c s' =>
      if Ascii.eqb c sep then EmptyString :: split sep s'
      else match split sep s' with
           | piece :: pieces => String c piece :: pieces
           | [] => [String c EmptyString]
           end
  end.

(** [d[key] = v] on a dictionary kept as the list of its items *)
Fixpoint dict_set {V : Type} (key : string) (v : V) (d : list (string * V))
  : list (string * V) :=
  match d with
  | [] => [(key, v)]
  | kv :: d' =>
      if String.eqb (fst kv) key then (key, v) :: d'
      else kv :: dict_set key v d'
  end.

(** [d[key]]; [None] is the [KeyError]. *)
Fixpoint dict_get {V : Type} (d : list (string * V)) (key : string) : option V :=
  match d with
  | [] => None
  | kv :: d' => if String.eqb (fst kv) key then Some (snd kv) else dict_get d' key
  end.

(** ** The questions *)

(** What [basic_input] writes: the question, one line per option, and the
    prompt. *)
Definition basic_input_shows (gen_input : string) (options : list (pyval * string))
  : list event :=
  Print gen_input
  :: map (fun ko => Print ("  " ++ str (fst ko) ++ ") " ++ snd ko)) options
  ++ [Prompt "> "].

Definition basic_input (gen_input : string) (options : list (pyval * string))
  : console string :=
  fun stdin =>
    after (Print gen_input
           :: map (fun ko => Print ("  " ++ str (fst ko) ++ ") " ++ snd ko)) options)
          (input "> " stdin).

Definition COST_INPUT_OPTIONS : list (string * string) :=
  [("$$$", "No object");
   ("$$", "Spendable, so long as I get value from doing so");
   ("$", "Extremely important; I want to spend as little as possible")].

Definition INTEREST_INPUT : list (string * string) :=
  [("sports", "sports"); ("wildlife", "wildlife"); ("nature", "nature");
   ("historical", "historical sites"); ("cuisine", "fine dining");
   ("adventure", "adventure activities"); ("beach", "the beach")].

(** The third component of a row of [QUESTIONS] with the options it goes
    with. *)
Inductive question_type : Type :=
| numeric (options : list string)
| multiple_numeric (options : list string)
| string_ (options : list (string * string)).

Definition QUESTIONS : list (string * string * question_type) :=
  [("continent", "Which continents would you like to travel to?",
    multiple_numeric CONTINENT_OPTIONS);
   ("cost", "What is money to you?", string_ COST_INPUT_OPTIONS);
   ("crime", "How much crime is acceptable when you travel?",
    numeric CRIME_OPTIONS);
   ("kids", "Will you be travelling with children?", numeric CHILDREN_OPTIONS);
   ("season", "Which seasons do you plan to travel in?",
    multiple_numeric SEASON_OPTIONS);
   ("climate", "What climate do you prefer?", numeric CLIMATE_OPTIONS)].

(** A value of the [responses] dictionary. *)
Inductive answer : Type :=
| One (s : string)
| Many (l : list string).

Section Questions.

(** Python's [int] on a string is a parameter: [py_int s] is the integer
    read, [None] when [int(s)] raises [ValueError]. *)
Variable py_int : string -> option Z.

(** [1 <= n <= len(options)] *)
Definition in_range (options : list string) (n : Z) : bool :=
  ((1 <=? n)%Z && (n <=? Z.of_nat (List.length options))%Z)%bool.

(** The loop of [input_numeric_options]; each round reads one line. In the
    error message [response] is the integer once [int] has succeeded. *)
Fixpoint input_numeric_options (gen_input : string) (options : list string)
  (stdin : list string) : reply string :=
  let shown := basic_input_shows gen_input (enumerate 1 options) in
  match stdin with
  | [] => Failed EOFError shown
  | response :: stdin' =>
      let again (response : pyval) :=
        after (shown ++ [Print (NL ++ "Error: " ++ str response
                                   ++ " is not a valid input." ++ " "
                                   ++ "Try again." ++ NL)])
              (input_numeric_options gen_input options stdin') in
      match py_int response with
      | None => again (PStr response)
      | Some n =>
          if in_range options n then
            match nth_error options (Z.to_nat (n - 1)) with
            | Some o => Returned o stdin' shown
            | None => again (PInt n)
            end
          else again (PInt n)
      end
  end.

(** The loop of [input_str_options]. *)
Fixpoint input_str_options (gen_input : string) (options : list (string * string))
  (stdin : list string) : reply string :=
  let valid_responses := map fst options in
  let shown :=
    basic_input_shows gen_input (map (fun ko => (PStr (fst ko), snd ko)) options) in
  match stdin with
  | [] => Failed EOFError shown
  | response :: stdin' =>
      if mem response valid_responses then Returned response stdin' shown
      else
        after (shown ++ [Print (NL ++ "Error: " ++ response
                                   ++ " is not a valid." ++ " "
                                   ++ "Try again." ++ NL)])
              (input_str_options gen_input options stdin')
  end.

(** [int] of every piece, in order; [None] as soon as one raises. *)
Fixpoint ints (pieces : list string) : option (list Z) :=
  match pieces with
  | [] => Some []
  | piece :: pieces' =>
      match py_int piece, ints pieces' with
      | Some n, Some ns => Some (n :: ns)
      | _, _ => None
      end
  end.

(** The loop of [input_multiple_numeric_options]. The three exceptions of
    the [try] have one handler, so the answer is refused if any piece is not
    an integer or any integer is not an option number. *)
Fixpoint input_multiple_numeric_options (gen_input : string) (options : list string)
  (stdin : list string) : reply (list string) :=
  let shown := basic_input_shows gen_input (enumerate 1 options) in
  match stdin with
  | [] => Failed EOFError shown
  | response :: stdin' =>
      let again :=
        after (shown ++ [Print (NL ++ "Error: " ++ response
                                   ++ " is not a valid." ++ " "
                                   ++ "Try again." ++ NL)])
              (input_multiple_numeric_options gen_input options stdin') in
      match ints (split "," response) with
      | None => again
      | Some picks =>
          match collect_options options picks with
          | Some responses => Returned responses stdin' shown
          | None => again
          end
      end
  end.

(** The loop of [input_interest_question]. *)
Fixpoint input_interest_question (label : string) (stdin : list string)
  : reply Z :=
  let shown :=
    [Print ("How much do you like " ++ label ++ "? (-5 to 5)"); Prompt "> "] in
  match stdin with
  | [] => Failed EOFError shown
  | response :: stdin' =>
      let again (response : pyval) :=
        after (shown ++ [Print (NL ++ "Error: " ++ str response
                                   ++ " is not valid." ++ " "
                                   ++ "Try again." ++ NL)])
              (input_interest_question label stdin') in
      match py_int response with
      | None => again (PStr response)
      | Some n =>
          if ((-5 <=? n)%Z && (n <=? 5)%Z)%bool then Returned n stdin' shown
          else again (PInt n)
      end
  end.

(** ** [main] *)

(** The branch of the question loop for one row. *)
Definition ask_question (question : string) (type_ : question_type)
  : console answer :=
  match type_ with
  | numeric options =>
      a <~ input_numeric_options question options ;; ret (One a)
  | multiple_numeric options =>
      a <~ input_multiple_numeric_options question options ;; ret (Many a)
  | string_ options =>
      a <~ input_str_options question options ;; ret (One a)
  end.

(** [for key, (question, options), type_ in QUESTIONS] *)
Fixpoint ask_questions (questions : list (string * string * question_type))
  (responses : list (string * answer)) : console (list (string * answer)) :=
  match questions with
  | [] => ret responses
  | (key, question, type_) :: questions' =>
      a <~ ask_question question type_ ;;
      _ <~ print "" ;;
      ask_questions questions' (dict_set key a responses)
  end.

(** [for key, label in INTEREST_INPUT] *)
Fixpoint ask_interests (inputs : list (string * string))
  (interests : list (string * Z)) : console (list (string * Z)) :=
  match inputs with
  | [] => ret interests
  | (key, label) :: inputs' =>
      n <~ input_interest_question label ;;
      _ <~ print "" ;;
      ask_interests inputs' (dict_set key n interests)
  end.

(** The six entries the matching loop reads from [responses]; [None] if one
    is missing or is not of the kind the loop uses it as. *)
Definition responses_read (responses : list (string * answer))
  (interests : list (string * Z)) : option Responses :=
  match dict_get responses "continent", dict_get responses "cost",
        dict_get responses "crime", dict_get responses "kids",
        dict_get responses "season", dict_get responses "climate" with
  | Some (Many continent), Some (One cost), Some (One crime), Some (One kids),
    Some (Many season), Some (One climate) =>
      Some {| continent := continent; cost := cost; crime := crime;
              kids := kids; season := season; climate := climate;
              interests := interests |}
  | _, _, _, _, _, _ => None
  end.

(** The matching loop inside [main]: an exception it raises ends the
    run. *)
Definition matching (catalog : list Destination)
  (responses : list (string * answer)) (interests : list (string * Z))
  : console (option Destination) :=
  fun stdin =>
    match responses_read responses interests with
    | None => Failed (MatchError LookupKeyError) []
    | Some r =>
        match main_match catalog r with
        | Ok m => Returned m stdin []
        | Raise e => Failed (MatchError e) []
        end
    end.

Definition INTERESTS_INTRO : string :=
  "Now we would like to ask you some questions about your interests, on "
  ++ "a scale of -5 to 5. -5 indicates strong dislike, whereas 5 indicates "
  ++ "strong interest, and 0 indicates indifference." ++ NL.

(** [main], on the catalog that [Destinations().get_all()] returns. *)
Definition main (catalog : list Destination) : console unit :=
  _ <~ print ("Welcome to Travel Inspiration!" ++ NL) ;;
  name <~ input "What is your name? " ;;
  _ <~ print (NL ++ "Hi, " ++ name ++ "!" ++ NL) ;;
  responses <~ ask_questions QUESTIONS [] ;;
  _ <~ print INTERESTS_INTRO ;;
  interests <~ ask_interests INTEREST_INPUT [] ;;
  match_ <~ matching catalog responses interests ;;
  fun stdin => Returned tt stdin (map Print (report match_)).

End Questions.

(** ** Valid lines *)

(** The lines each question accepts, and the message for a line it
    refuses. *)
Definition try_again (response : string) (what : string) : string :=
  NL ++ "Error: " ++ response ++ what ++ " " ++ "Try again." ++ NL.

Definition valid_numeric (py_int : string -> option Z) (options : list string)
  (line : string) : bool :=
  match py_int line with
  | Some n => in_range options n
  | None => false
  end.

Definition refusal_numeric (py_int : string -> option Z) (what line : string)
  : event :=
  Print (try_again (match py_int line with
                    | Some n => str_int n
                    | None => line
                    end) what).

Definition valid_str (options : list (string * string)) (line : string) : bool :=
  mem line (map fst options).

Definition valid_multiple (py_int : string -> option Z) (options : list string)
  (line : string) : bool :=
  match ints py_int (split "," line) with
  | Some picks => forallb (in_range options) picks
  | None => false
  end.

Definition valid_interest (py_int : string -> option Z) (line : string) : bool :=
  match py_int line with
  | Some n => ((-5 <=? n)%Z && (n <=? 5)%Z)%bool
  | None => false
  end.

(** What is written while the lines [refused] are refused one after the
    other: each time the question and then the message. *)
Definition rounds (shown : list event) (message : string -> event)
  (refused : list string) : list event :=
  flat_map (fun line => shown ++ [message line]) refused.

(** The shape the four question loops share: ask, read a line, return on
    a line that [check] accepts, write its message and ask again
    otherwise. *)
Fixpoint ask {A : Type} (shown : list event) (check : string -> A + event)
  (stdin : list string) : reply A :=
  match stdin with
  | [] => Failed EOFError shown
  | line :: stdin' =>
      match check line with
      | inl a => Returned a stdin' shown
      | inr message => after (shown ++ [message]) (ask shown check stdin')
      end
  end.

(** What each loop does with one line: the value it returns, or the
    message it writes before asking again. *)
Definition check_numeric (py_int : string -> option Z) (options : list string)
  (line : string) : string + event :=
  match py_int line with
  | None => inr (refusal_numeric py_int " is not a valid input." line)
  | Some n =>
      if in_range options n then
        match nth_error options (Z.to_nat (n - 1)) with
        | Some o => inl o
        | None => inr (refusal_numeric py_int " is not a valid input." line)
        end
      else inr (refusal_numeric py_int " is not a valid input." line)
  end.

Definition check_str (options : list (string * string)) (line : string)
  : string + event :=
  if mem line (map fst options) then inl line
  else inr (Print (try_again line " is not a valid.")).

Definition check_multiple (py_int : string -> option Z) (options : list string)
  (line : string) : list string + event :=
  match ints py_int (split "," line) with
  | None => inr (Print (try_again line " is not a valid."))
  | Some picks =>
      match collect_options options picks with
      | Some responses => inl responses
      | None => inr (Print (try_again line " is not a valid."))
      end
  end.

Definition check_interest (py_int : string -> option Z) (line : string)
  : Z + event :=
  match py_int line with
  | None => inr (refusal_numeric py_int " is not valid." line)
  | Some n =>
      if ((-5 <=? n)%Z && (n <=? 5)%Z)%bool then inl n
      else inr (refusal_numeric py_int " is not valid." line)
  end.

(** [options[p - 1]] for an option number [p]. *)
Definition option_at (options : list string) (p : Z) : string :=
  nth (Z.to_nat (p - 1)) options EmptyString.

(** [m] returns with [R] or fails with [F]. *)
Definition satisfies {A : Type} (m : reply A)
  (R : A -> list string -> list event -> Prop)
  (F : failure -> list event -> Prop) : Prop :=
  match m with
  | Returned a stdin out => R a stdin out
  | Failed f out => F f out
  end.

(** An answer of the kind and with the content that the question of type
    [type_] returns. *)
Definition answer_ok (type_ : question_type) (a : answer) : Prop :=
  match type_, a with
  | numeric options, One s => In s options
  | multiple_numeric options, Many l => selection_of options l = true
  | string_ options, One s => In s (map fst options)
  | _, _ => False
  end.

(** The dictionary after the assignments [d[k] = v] for the pairs of [kvs]
    in order. *)
Definition dict_set_all {V : Type} (kvs : list (string * V))
  (d : list (string * V)) : list (string * V) :=
  fold_left (fun d kv => dict_set (fst kv) (snd kv) d) kvs d.

(** ** A session *)

Module Session.

(** An [int] for the examples: an optional minus sign and decimal
    digits. *)
Definition int (s : string) : option Z :=
  option_map Z.of_int (DecimalString.NilZero.int_of_string s).

(** A user who mistypes now and then. *)
Definition typed : list string :=
  ["Ada"; "1,x"; "1,1"; "$$$$"; "$$"; "9"; "2"; "1"; "1,2"; "moderate"; "3";
   "0"; "1"; "2"; "7"; "5"; "3"; "-2"; "0"; "left over"].

(** A record with a crime level that is not in the table. *)
Definition lagos : Destination := {|
  get_name := "Lagos"; get_continent := "africa"; get_crime := "severe";
  get_cost := "$"; is_kid_friendly := true; get_climate := "hot";
  get_season_factor := Sample.seasons 1 1 1 1;
  get_interest_score := Sample.scores 1 1 1 1 1 1 1 |}.

(** A record that has no factor for the spring. *)
Definition bergen : Destination := {|
  get_name := "Bergen"; get_continent := "eUROPE"; get_crime := "LOW";
  get_cost := "$$"; is_kid_friendly := true; get_climate := "cool";
  get_season_factor :=
    Sample.table [("summer", 1); ("autumn", 1); ("winter", 1 # 2)];
  get_interest_score := Sample.scores 1 1 1 1 1 1 1 |}.

(** [bergen] in lower case, with all its factors. *)
Definition oslo : Destination := {|
  get_name := "Oslo"; get_continent := "europe"; get_crime := "low";
  get_cost := "$$"; is_kid_friendly := true; get_climate := "cool";
  get_season_factor := Sample.seasons (1 # 2) 1 1 (1 # 2);
  get_interest_score := Sample.scores 2 1 3 1 1 2 0 |}.

Definition europe_trip : Responses := {|
  continent := ["Europe"; "Africa"]; cost := "$$"; crime := "Low"; kids := "No";
  season := ["Spring"]; climate := "Cool";
  interests := Sample.likes 1 0 2 0 0 1 0 |}.

(** Somebody who does not care about anything. *)
Definition indifferent : Responses := {|
  continent := ["Asia"]; cost := "$$"; crime := "Average"; kids := "Yes";
  season := ["Spring"; "Summer"]; climate := "Moderate";
  interests := Sample.likes 0 0 0 0 0 0 0 |}.

End Session.

(** ** Letter case *)

Section LetterCase.

Local Ltac by_cases c := destruct c as [[] [] [] [] [] [] [] []]; reflexivity.

Lemma to_lower_idem (c : ascii) : to_lower (to_lower c) = to_lower c.
Proof. by_cases c. Qed.

Lemma to_lower_upper (c : ascii) : to_lower (to_upper c) = to_lower c.
Proof. by_cases c. Qed.

Lemma to_upper_lower (c : ascii) : to_upper (to_lower c) = to_upper c.
Proof. by_cases c. Qed.

Lemma is_cased_lower (c : ascii) : is_cased (to_lower c) = is_cased c.
Proof. by_cases c. Qed.

Lemma lower_idem (s : string) : lower (lower s) = lower s.
Proof.
  induction s as [|c s IH]; simpl; [reflexivity|].
  now rewrite to_lower_idem, IH.
Qed.

Lemma title_from_lower (b : bool) (s : string) :
  title_from b (lower s) = title_from b s.
Proof.
  revert b; induction s as [|c s IH]; intro b; simpl; [reflexivity|].
  rewrite is_cased_lower, IH.
  destruct b; now rewrite ?to_lower_idem, ?to_upper_lower.
Qed.

Lemma lower_title_from (b : bool) (s : string) :
  lower (title_from b s) = lower s.
Proof.
  revert b; induction s as [|c s IH]; intro b; simpl; [reflexivity|].
  rewrite IH.
  destruct b; now rewrite ?to_lower_idem, ?to_lower_upper.
Qed.

Lemma title_lower (s : string) : title (lower s) = title s.
Proof. apply title_from_lower. Qed.

Lemma lower_title (s : string) : lower (title s) = lower s.
Proof. apply lower_title_from. Qed.

(** For a label [c] written in title case, [s.title() == c] says that
    [s] is [c] up to letter case. *)
Lemma title_eq_iff (s c : string) :
  title c = c -> (title s = c <-> same_label s c).
Proof.
  intro Hc; unfold same_label; split; intro H.
  - now rewrite <- H, lower_title.
  - now rewrite <- title_lower, H, title_lower.
Qed.

End LetterCase.

(** ** Lists of labels *)

Lemma mem_In (x : string) (l : list string) : mem x l = true <-> In x l.
Proof.
  unfold mem; rewrite existsb_exists; split.
  - intros (y & Hy & E). apply String.eqb_eq in E. now subst.
  - intro H. exists x. split; [assumption | apply String.eqb_refl].
Qed.

Lemma mem_false (x : string) (l : list string) : mem x l = false <-> ~ In x l.
Proof.
  rewrite <- mem_In. destruct (mem x l); split; congruence.
Qed.

Lemma mem_incl (x : string) (l l' : list string) :
  incl l l' -> mem x l = true -> mem x l' = true.
Proof. rewrite !mem_In. intros H Hx. now apply H. Qed.

Lemma mem_same_set (x : string) (l l' : list string) :
  (forall y, In y l <-> In y l') -> mem x l = mem x l'.
Proof.
  intro H. destruct (mem x l') eqn:E.
  - apply mem_In, H, mem_In, E.
  - apply mem_false. intro Hx. apply H, mem_In in Hx. congruence.
Qed.

Lemma titled_CONTINENT : titled CONTINENT_OPTIONS.
Proof. intros c H; simpl in H; intuition (subst; reflexivity). Qed.

Lemma titled_CRIME : titled CRIME_OPTIONS.
Proof. intros c H; simpl in H; intuition (subst; reflexivity). Qed.

Lemma titled_CLIMATE : titled CLIMATE_OPTIONS.
Proof. intros c H; simpl in H; intuition (subst; reflexivity). Qed.

(** [index] on titled labels finds the ordinal of the label. *)
Lemma index_title (levels : list string) (x : string) :
  titled levels ->
  index levels (title x) =
  match ordinal_in levels x with
  | Some i => Ok i
  | None => Raise IndexValueError
  end.
Proof.
  induction levels as [|y levels IH]; intro T; simpl; [reflexivity|].
  assert (Ty : title y = y) by (apply T; now left).
  assert (E : String.eqb y (title x) = String.eqb (lower y) (lower x)).
  { destruct (String.eqb (lower y) (lower x)) eqn:L.
    - apply String.eqb_eq in L. apply String.eqb_eq. symmetry.
      apply title_eq_iff; [assumption | now symmetry].
    - apply String.eqb_neq in L. apply String.eqb_neq. intro H. apply L.
      symmetry. apply title_eq_iff; [assumption | now symmetry]. }
  rewrite E. destruct (String.eqb (lower y) (lower x)); [reflexivity|].
  rewrite IH by (intros c Hc; apply T; now right).
  now destruct (ordinal_in levels x).
Qed.

Lemma index_listed (levels : list string) (x : string) :
  titled levels -> In x levels ->
  index levels x =
  match ordinal_in levels x with
  | Some i => Ok i
  | None => Raise IndexValueError
  end.
Proof.
  intros T H. rewrite <- (T x H) at 1. now apply index_title.
Qed.

Lemma index_In (levels : list string) (x : string) :
  In x levels -> exists i, index levels x = Ok i.
Proof.
  induction levels as [|y levels IH]; simpl; [tauto|].
  intros [-> | H].
  - rewrite String.eqb_refl. now exists O.
  - destruct (String.eqb y x); [now exists O|].
    destruct (IH H) as [i ->]. now exists (S i).
Qed.

(** ** The filters, read off the code *)

Lemma is_eligible_true_iff (d : Destination) (r : Responses) :
  is_eligible d r = Ok true <->
  In (title (get_continent d)) (continent r) /\
  (exists i j, index CRIME_OPTIONS (title (get_crime d)) = Ok i /\
               index CRIME_OPTIONS (crime r) = Ok j /\ (i <= j)%nat) /\
  (String.length (get_cost d) <= String.length (cost r))%nat /\
  (kids r = "Yes" -> is_kid_friendly d = true) /\
  lower (climate r) = get_climate d.
Proof.
  unfold is_eligible.
  destruct (mem (title (get_continent d)) (continent r)) eqn:Hc; cbn [negb bind].
  2:{ apply mem_false in Hc. split; [discriminate | tauto]. }
  apply mem_In in Hc.
  destruct (index CRIME_OPTIONS (title (get_crime d))) as [i|e] eqn:Hi; cbn [bind].
  2:{ split; [discriminate|]. intros (_ & (i & j & H & _) & _). discriminate. }
  destruct (index CRIME_OPTIONS (crime r)) as [j|e] eqn:Hj; cbn [bind].
  2:{ split; [discriminate|]. intros (_ & (i' & j & _ & H & _) & _). discriminate. }
  destruct (Nat.ltb_spec j i).
  { split; [discriminate|]. intros (_ & (i' & j' & H1 & H2 & Hle) & _).
    injection H1 as <-. injection H2 as <-. lia. }
  destruct (Nat.ltb_spec (String.length (cost r)) (String.length (get_cost d))).
  { split; [discriminate|]. intros (_ & _ & Hle & _). lia. }
  destruct (String.eqb_spec (kids r) "Yes") as [Hk|Hk]; cbn [andb];
    destruct (is_kid_friendly d) eqn:Hf; cbn [negb];
    try (split; [discriminate|]; intros (_ & _ & _ & H' & _);
         specialize (H' Hk); discriminate);
    (destruct (String.eqb_spec (lower (climate r)) (get_climate d)) as [Hm|Hm]; cbn [negb];
     [ split; [intros _|reflexivity];
       repeat split; try assumption; try (intros; congruence);
       exists i, j; repeat split; assumption
     | split; [discriminate|]; intros (_ & _ & _ & _ & H'); contradiction ]).
Qed.

(** ** Well-formed answers, unpacked *)

Lemma selection_of_inv (options l : list string) :
  selection_of options l = true -> l <> [] /\ incl l options.
Proof.
  unfold selection_of. intro H. apply andb_prop in H as [Hn Hall]. split.
  - destruct l; [discriminate | congruence].
  - intros x Hx. rewrite forallb_forall in Hall. now apply mem_In, Hall.
Qed.

Lemma wf_responses_Answers (r : Responses) :
  wf_responses r = true -> Answers r.
Proof.
  unfold wf_responses. intro H.
  do 7 (apply andb_prop in H as [H ?]).
  destruct (selection_of_inv _ _ H).
  match goal with S : selection_of SEASON_OPTIONS _ = true |- _ =>
    destruct (selection_of_inv _ _ S) end.
  constructor; try assumption; now apply mem_In.
Qed.

Lemma is_some_inv {A : Type} (o : option A) : is_some o = true -> exists a, o = Some a.
Proof. destruct o; [now eexists | discriminate]. Qed.

Lemma complete_Complete (d : Destination) : complete d = true -> Complete d.
Proof.
  unfold complete. intro H.
  apply andb_prop in H as [H Hi]. apply andb_prop in H as [Hc Hs].
  rewrite forallb_forall in Hs, Hi.
  constructor.
  - destruct (index CRIME_OPTIONS (title (get_crime d))); [now eexists | discriminate].
  - intros s Hin. now apply is_some_inv, Hs.
  - intros k Hin. now apply is_some_inv, Hi.
Qed.

Lemma catalog_Complete (catalog : list Destination) :
  forallb complete catalog = true -> forall d, In d catalog -> Complete d.
Proof.
  intros H d Hd. rewrite forallb_forall in H. now apply complete_Complete, H.
Qed.

(** ** [max] and [sum] over a generator of looked-up values *)

Lemma Qgtb_lt (a b : Q) : Qgtb a b = true <-> b < a.
Proof.
  unfold Qgtb. rewrite negb_true_iff, <- not_true_iff_false, Qle_bool_iff.
  split; [apply Qnot_le_lt | apply Qlt_not_le].
Qed.

Lemma Qgtb_le (a b : Q) : Qgtb a b = false <-> a <= b.
Proof. unfold Qgtb. now rewrite negb_false_iff, Qle_bool_iff. Qed.

#[local] Instance Qgtb_compat : Proper (Qeq ==> Qeq ==> eq) Qgtb.
Proof. intros a a' Ha b b' Hb. unfold Qgtb. now rewrite Ha, Hb. Qed.

Section Lookups.

Context {A : Type} (g : A -> option Q).

Let f (x : A) : result Q := of_lookup (g x).

Lemma max_from_defined (l : list A) (m : Q) :
  (forall x, In x l -> exists v, g x = Some v) ->
  exists q, max_from f m l = Ok q /\ m <= q /\
            (forall x v, In x l -> g x = Some v -> v <= q) /\
            (q = m \/ exists x, In x l /\ g x = Some q).
Proof.
  revert m; induction l as [|a l IH]; intros m Hall; simpl.
  - exists m. repeat split; [apply Qle_refl | intros ? ? [] | now left].
  - destruct (Hall a (or_introl eq_refl)) as [v Hv].
    unfold f at 1. rewrite Hv. cbn [of_lookup bind].
    destruct (IH (if Qgtb v m then v else m)
                 (fun x Hx => Hall x (or_intror Hx)))
      as (q & Hq & Hm & Hub & Hwit).
    exists q. split; [assumption|].
    destruct (Qgtb v m) eqn:G.
    + apply Qgtb_lt in G. repeat split.
      * apply Qle_trans with v; [now apply Qlt_le_weak | assumption].
      * intros x w [-> | Hx] Hw; [|now apply (Hub x)].
        rewrite Hv in Hw. injection Hw as <-. assumption.
      * right. destruct Hwit as [-> | (x & Hx & Hgx)].
        -- exists a. split; [now left | assumption].
        -- exists x. split; [now right | assumption].
    + apply Qgtb_le in G. repeat split.
      * assumption.
      * intros x w [-> | Hx] Hw; [|now apply (Hub x)].
        rewrite Hv in Hw. injection Hw as <-.
        now apply Qle_trans with m.
      * destruct Hwit as [-> | (x & Hx & Hgx)]; [now left|].
        right. exists x. split; [now right | assumption].
Qed.

Lemma max_from_undefined (l : list A) (m : Q) :
  (exists x, In x l /\ g x = None) ->
  max_from f m l = Raise LookupKeyError.
Proof.
  revert m; induction l as [|a l IH]; intros m (x & Hx & Hg); simpl.
  - destruct Hx.
  - unfold f at 1. destruct (g a) as [v|] eqn:Ha; cbn [of_lookup bind];
      [|reflexivity].
    apply IH. destruct Hx as [-> | Hx]; [congruence|]. now exists x.
Qed.

(** The three outcomes of [max] over the values looked up for [l]. *)
Lemma py_max_cases (l : list A) :
  (l = [] /\ py_max f l = Raise MaxValueError) \/
  ((exists x, In x l /\ g x = None) /\ py_max f l = Raise LookupKeyError) \/
  (l <> [] /\ (forall x, In x l -> exists v, g x = Some v) /\
   exists q, py_max f l = Ok q /\ is_max_over g l q).
Proof.
  destruct l as [|a l]; [now left | right].
  destruct (g a) as [v|] eqn:Ha.
  2:{ left. split; [exists a; split; [now left | assumption]|].
      simpl. unfold f. now rewrite Ha. }
  assert (D : (exists x, In x l /\ g x = None) \/
              (forall x, In x l -> exists v, g x = Some v)).
  { clear. induction l as [|b l IH]; [right; intros ? []|].
    destruct (g b) as [w|] eqn:Hb.
    - destruct IH as [(x & Hx & Hg) | IH].
      + left. exists x. split; [now right | assumption].
      + right. intros x [-> | Hx]; [now exists w | now apply IH].
    - left. exists b. split; [now left | assumption]. }
  destruct D as [(x & Hx & Hg) | Hall].
  - left. split; [exists x; split; [now right | assumption]|].
    simpl. unfold f at 1. rewrite Ha. cbn [of_lookup bind].
    apply max_from_undefined. now exists x.
  - right. split; [discriminate|]. split.
    { intros x [-> | Hx]; [now exists v | now apply Hall]. }
    destruct (max_from_defined l v Hall) as (q & Hq & Hm & Hub & Hwit).
    exists q. split.
    { simpl. unfold f at 1. now rewrite Ha. }
    split.
    + destruct Hwit as [-> | (x & Hx & Hg)].
      * exists a. split; [now left | assumption].
      * exists x. split; [now right | assumption].
    + intros x w [-> | Hx] Hw; [|now apply (Hub x)].
      rewrite Ha in Hw. injection Hw as <-. assumption.
Qed.

End Lookups.

(** ** The interest sum *)

Lemma keys_are_interest_of (ks : list string) (kvs : list (string * Z)) :
  keys_are ks kvs = true ->
  forall k, In k ks -> exists z, interest_of kvs k = Some z.
Proof.
  revert kvs; induction ks as [|k0 ks IH]; intros [|kv kvs] H k Hk;
    simpl in *; try discriminate; try tauto.
  apply andb_prop in H as [E H]. apply String.eqb_eq in E.
  destruct (String.eqb (fst kv) k) eqn:Ek; [now eexists|].
  destruct Hk as [-> | Hk]; [|now apply IH].
  rewrite <- E, String.eqb_refl in Ek. discriminate.
Qed.

Section InterestSum.

Variable d : Destination.

Let term (kv : string * Z) : result Q :=
  v <- of_lookup (get_interest_score d (fst kv)) ;; Ok (inject_Z (snd kv) * v).

Lemma sum_from_keys (ks : list string) :
  forall (kvs : list (string * Z)) (acc : Q),
  keys_are ks kvs = true -> NoDup ks ->
  (forall k, In k ks -> exists q, get_interest_score d k = Some q) ->
  exists i, sum_from term acc kvs = Ok i /\
    forall (u : string -> Z) (w : string -> Q),
      (forall k, In k ks -> interest_of kvs k = Some (u k) /\
                            get_interest_score d k = Some (w k)) ->
      i == acc + fold_right (fun k a => inject_Z (u k) * w k + a) 0 ks.
Proof.
  induction ks as [|k0 ks IH]; intros [|kv kvs] acc H ND Hd;
    simpl in H; try discriminate.
  - exists acc. split; [reflexivity|]. intros; simpl. ring.
  - apply andb_prop in H as [E H]. apply String.eqb_eq in E.
    inversion ND as [|? ? Hnotin ND']; subst.
    destruct (Hd (fst kv) (or_introl eq_refl)) as [v Hv].
    destruct (IH kvs (acc + inject_Z (snd kv) * v) H ND'
                 (fun k Hk => Hd k (or_intror Hk))) as (i & Hi & Hspec).
    exists i. split.
    { simpl. unfold term at 1. rewrite Hv. cbn [of_lookup bind]. exact Hi. }
    intros u w Huw. simpl.
    destruct (Huw (fst kv) (or_introl eq_refl)) as [Hu Hw].
    simpl in Hu. rewrite String.eqb_refl in Hu. injection Hu as Hu.
    rewrite Hv in Hw. injection Hw as Hw.
    rewrite (Hspec u w).
    + rewrite <- Hu, <- Hw. ring.
    + intros k Hk. destruct (Huw k (or_intror Hk)) as [Hu' Hw'].
      split; [|assumption].
      simpl in Hu'. destruct (String.eqb (fst kv) k) eqn:Ek; [|assumption].
      apply String.eqb_eq in Ek. subst k. contradiction.
Qed.

End InterestSum.

Lemma NoDup_INTEREST_KEYS : NoDup INTEREST_KEYS.
Proof.
  unfold INTEREST_KEYS.
  repeat (constructor; [simpl; intuition discriminate|]). constructor.
Qed.

(** ** The scores are defined on well-formed inputs *)

Section Defined.

Variable r : Responses.
Hypothesis Hr : Answers r.

Lemma is_eligible_defined (d : Destination) :
  Complete d -> exists b, is_eligible d r = Ok b.
Proof.
  intros [(i & Hi) _ _]. destruct (index_In _ _ (crime_listed r Hr)) as [j Hj].
  unfold is_eligible. rewrite Hi, Hj. cbn [bind].
  repeat match goal with
         | |- context [if ?c then _ else _] => destruct c
         end; eauto.
Qed.

Lemma season_score_defined (d : Destination) :
  Complete d ->
  exists q, season_score d r = Ok q /\
            is_max_over (fun s => get_season_factor d (lower s)) (season r) q.
Proof.
  intros Hd. unfold season_score.
  destruct (py_max_cases (fun s => get_season_factor d (lower s)) (season r))
    as [[E _] | [[(s & Hs & Hnone) _] | (_ & _ & H)]].
  - now destruct (seasons_chosen r Hr).
  - destruct (seasons_defined d Hd s (seasons_listed r Hr s Hs)). congruence.
  - exact H.
Qed.

Lemma interest_score_defined (d : Destination) :
  Complete d ->
  exists i, interest_score d r = Ok i /\
    exists (u : string -> Z) (w : string -> Q),
      (forall k, In k INTEREST_KEYS ->
                 interest_of (interests r) k = Some (u k) /\
                 get_interest_score d k = Some (w k)) /\
      i == dot_product u w.
Proof.
  intros Hd.
  destruct (sum_from_keys d INTEREST_KEYS (interests r) 0
              (interests_keyed r Hr) NoDup_INTEREST_KEYS (interests_defined d Hd))
    as (i & Hi & Hspec).
  exists i. split; [exact Hi|].
  exists (fun k => match interest_of (interests r) k with Some z => z | None => 0%Z end),
         (fun k => match get_interest_score d k with Some q => q | None => 0 end).
  assert (Huw : forall k, In k INTEREST_KEYS ->
    interest_of (interests r) k =
      Some (match interest_of (interests r) k with Some z => z | None => 0%Z end) /\
    get_interest_score d k =
      Some (match get_interest_score d k with Some q => q | None => 0 end)).
  { intros k Hk.
    destruct (keys_are_interest_of _ _ (interests_keyed r Hr) k Hk) as [z ->].
    destruct (interests_defined d Hd k Hk) as [q ->]. now split. }
  split; [exact Huw|].
  rewrite (Hspec _ _ Huw). unfold dot_product. ring.
Qed.

Lemma composite_score_defined (d : Destination) :
  Complete d -> exists q, composite_score d r = Ok q.
Proof.
  intro Hd. unfold composite_score.
  destruct (season_score_defined d Hd) as (s & -> & _).
  destruct (interest_score_defined d Hd) as (i & -> & _).
  now eexists.
Qed.

End Defined.

(** ** One challenge *)

Lemma challenge_scores (m d : Destination) (r : Responses) (pm pd : Q) :
  composite_score m r = Ok pm -> composite_score d r = Ok pd ->
  challenge m d r = Ok (if Qgtb pd pm then d else m).
Proof.
  unfold composite_score, challenge. intros Hm Hd.
  destruct (season_score m r) as [sm|]; [|discriminate].
  destruct (season_score d r) as [sd|]; [|discriminate].
  destruct (interest_score m r) as [im|]; [|discriminate].
  destruct (interest_score d r) as [id|]; [|discriminate].
  cbn [bind] in *. injection Hm as <-. injection Hd as <-.
  now destruct (Qgtb (sd * id) (sm * im)).
Qed.

Lemma score_lt_trans (r : Responses) (a b c : Destination) :
  score_lt r a b -> score_lt r b c -> score_lt r a c.
Proof.
  intros (x & y & Hx & Hy & L1) (y' & z & Hy' & Hz & L2).
  rewrite Hy in Hy'. injection Hy' as <-.
  exists x, z. repeat split; try assumption. now apply Qlt_trans with y.
Qed.

Lemma score_le_lt_trans (r : Responses) (a b c : Destination) :
  score_le r a b -> score_lt r b c -> score_lt r a c.
Proof.
  intros (x & y & Hx & Hy & L1) (y' & z & Hy' & Hz & L2).
  rewrite Hy in Hy'. injection Hy' as <-.
  exists x, z. repeat split; try assumption. now apply Qle_lt_trans with y.
Qed.

Lemma score_le_refl (r : Responses) (a : Destination) (q : Q) :
  composite_score a r = Ok q -> score_le r a a.
Proof. intro H. exists q, q. repeat split; try assumption. apply Qle_refl. Qed.

Lemma score_lt_le (r : Responses) (a b : Destination) :
  score_lt r a b -> score_le r a b.
Proof.
  intros (x & y & Hx & Hy & L). exists x, y. repeat split; try assumption.
  now apply Qlt_le_weak.
Qed.

(** ** The loop keeps the first best destination *)

Section BestSoFar.

Variable r : Responses.
Hypothesis Hr : Answers r.

Lemma step_best_so_far (seen : list Destination) (m : option Destination)
  (d : Destination) :
  (forall x, In x (seen ++ [d]) -> Complete x) ->
  best_so_far r seen m ->
  exists m', step r m d = Ok m' /\ best_so_far r (seen ++ [d]) m'.
Proof.
  intros HC Hinv.
  assert (Cd : Complete d) by (apply HC, in_or_app; right; now left).
  destruct (is_eligible_defined r Hr d Cd) as [b Hb].
  unfold step. rewrite Hb. cbn [bind]. destruct b; cbn [negb].
  - destruct m as [w|].
    + destruct Hinv as (p & s & -> & Hw & Hp & Hs).
      assert (Cw : Complete w).
      { apply HC, in_or_app; left. apply in_or_app; right. now left. }
      destruct (composite_score_defined r Hr w Cw) as [pw Hpw].
      destruct (composite_score_defined r Hr d Cd) as [pd Hpd].
      rewrite (challenge_scores w d r pw pd Hpw Hpd). cbn [bind].
      destruct (Qgtb pd pw) eqn:G.
      * apply Qgtb_lt in G.
        assert (Lwd : score_lt r w d) by (exists pw, pd; auto).
        exists (Some d). split; [reflexivity|].
        exists (p ++ w :: s), []. repeat split; try assumption.
        -- intros x Hx Px. apply in_app_or in Hx as [Hx | [<- | Hx]].
           ++ apply score_lt_trans with w; auto.
           ++ assumption.
           ++ apply score_le_lt_trans with w; auto.
        -- intros x [].
      * apply Qgtb_le in G.
        exists (Some w). split; [reflexivity|].
        exists p, (s ++ [d]). repeat split; try assumption.
        -- now rewrite <- app_assoc.
        -- intros x Hx Px. apply in_app_or in Hx as [Hx | [<- | []]].
           ++ auto.
           ++ exists pd, pw; auto.
    + exists (Some d). split; [reflexivity|].
      exists seen, []. repeat split; try assumption.
      * intros x Hx Px. red in Px. rewrite (Hinv x Hx) in Px. discriminate.
      * intros x [].
  - exists m. split; [reflexivity|]. destruct m as [w|].
    + destruct Hinv as (p & s & -> & Hw & Hp & Hs).
      exists p, (s ++ [d]). repeat split; try assumption.
      * now rewrite <- app_assoc.
      * intros x Hx Px. apply in_app_or in Hx as [Hx | [<- | []]]; [auto|].
        red in Px. congruence.
    + intros x Hx. apply in_app_or in Hx as [Hx | [<- | []]]; auto.
Qed.

Lemma main_loop_best_so_far (rest : list Destination) :
  forall (seen : list Destination) (m : option Destination),
  (forall x, In x (seen ++ rest) -> Complete x) ->
  best_so_far r seen m ->
  exists m', main_loop r m rest = Ok m' /\ best_so_far r (seen ++ rest) m'.
Proof.
  induction rest as [|d rest IH]; intros seen m HC Hinv.
  - exists m. rewrite app_nil_r. now split.
  - replace (seen ++ d :: rest) with ((seen ++ [d]) ++ rest) in *
      by now rewrite <- app_assoc.
    destruct (step_best_so_far seen m d) as (m1 & Hstep & Hinv1); [|assumption|].
    { intros x Hx. apply HC, in_or_app. now left. }
    destruct (IH (seen ++ [d]) m1 HC Hinv1) as (m' & Hloop & Hinv').
    exists m'. split; [|assumption].
    simpl. rewrite Hstep. exact Hloop.
Qed.

Lemma main_match_first_best (catalog : list Destination) :
  (forall x, In x catalog -> Complete x) ->
  exists m, main_match catalog r = Ok m /\ best_so_far r catalog m.
Proof.
  intro HC. apply (main_loop_best_so_far catalog [] None HC).
  intros x [].
Qed.

End BestSoFar.

(** ** What the loop does on any input *)

Lemma challenge_either (m d : Destination) (r : Responses) (x : Destination) :
  challenge m d r = Ok x -> x = m \/ x = d.
Proof.
  unfold challenge.
  destruct (season_score m r); [|discriminate].
  destruct (season_score d r); [|discriminate].
  destruct (interest_score m r); [|discriminate].
  destruct (interest_score d r); [|discriminate].
  cbn [bind].
  match goal with |- context [if ?c then _ else _] => destruct c end;
    intro H; injection H as <-; auto.
Qed.

Lemma step_keeps_or_takes (r : Responses) (m m' : option Destination)
  (d : Destination) :
  step r m d = Ok m' -> m' = m \/ (m' = Some d /\ passes d r).
Proof.
  unfold step, passes.
  destruct (is_eligible d r) as [[|]|]; cbn [bind negb]; try discriminate.
  - destruct m as [w|].
    + destruct (challenge w d r) as [x|] eqn:Hx; cbn [bind]; [|discriminate].
      intro H; injection H as <-.
      destruct (challenge_either _ _ _ _ Hx) as [-> | ->]; auto.
    + intro H; injection H as <-. auto.
  - intro H; injection H as <-. auto.
Qed.

Lemma main_loop_keeps_or_takes (r : Responses) (l : list Destination) :
  forall m m', main_loop r m l = Ok m' ->
  m' = m \/ exists d, m' = Some d /\ In d l /\ passes d r.
Proof.
  induction l as [|d l IH]; intros m m' H; simpl in H.
  - injection H as <-. now left.
  - destruct (step r m d) as [m1|] eqn:Hs; cbn [bind] in H; [|discriminate].
    destruct (IH _ _ H) as [-> | (x & -> & Hx & Px)].
    + destruct (step_keeps_or_takes _ _ _ _ Hs) as [-> | [-> Pd]]; [now left|].
      right. exists d. repeat split; [now left | assumption].
    + right. exists x. repeat split; [now right | assumption].
Qed.

Lemma main_loop_app (r : Responses) (l1 l2 : list Destination) :
  forall m, main_loop r m (l1 ++ l2) = (m1 <- main_loop r m l1 ;; main_loop r m1 l2).
Proof.
  induction l1 as [|d l1 IH]; intro m; simpl; [reflexivity|].
  destruct (step r m d); cbn [bind]; [apply IH | reflexivity].
Qed.

Lemma main_loop_skips (r : Responses) (l : list Destination) :
  (forall d, In d l -> is_eligible d r = Ok false) ->
  forall m, main_loop r m l = Ok m.
Proof.
  induction l as [|d l IH]; intros H m; simpl; [reflexivity|].
  unfold step. rewrite (H d (or_introl eq_refl)). cbn [bind negb].
  apply IH. intros x Hx. apply H. now right.
Qed.

(** ** Positions in the catalog *)

Lemma nth_error_middle {A : Type} (l1 : list A) (x : A) (l2 : list A) :
  nth_error (l1 ++ x :: l2) (List.length l1) = Some x.
Proof.
  rewrite nth_error_app2 by lia. now rewrite Nat.sub_diag.
Qed.

Lemma earlier_in_prefix {A : Type} (p : list A) (w : A) (s l1 : list A) (e : A)
  (t : list A) :
  p ++ w :: s = l1 ++ e :: t -> (List.length l1 < List.length p)%nat -> In e p.
Proof.
  intros E L.
  assert (H : nth_error p (List.length l1) = Some e).
  { rewrite <- (nth_error_app1 p (w :: s)) by assumption.
    rewrite E. apply nth_error_middle. }
  now apply nth_error_In in H.
Qed.

Lemma same_position {A : Type} (p : list A) (w : A) (s l1 : list A) (e : A)
  (t : list A) :
  p ++ w :: s = l1 ++ e :: t -> List.length p = List.length l1 -> w = e.
Proof.
  intros E L.
  pose proof (nth_error_middle p w s) as H.
  rewrite E, L, nth_error_middle in H. congruence.
Qed.

Lemma same_prefix {A : Type} (p : list A) (w : A) (s l1 : list A) (e : A)
  (t : list A) :
  p ++ w :: s = l1 ++ e :: t -> List.length p = List.length l1 -> p = l1.
Proof.
  revert l1; induction p as [|a p IH]; intros [|b l1] E L;
    try discriminate L; [reflexivity|].
  simpl in E, L. injection E as -> E. injection L as L.
  f_equal. now apply IH.
Qed.

Lemma score_le_antisym (r : Responses) (e d : Destination) :
  score_le r e d -> score_le r d e -> score_eq r e d.
Proof.
  intros (a & b & Ha & Hb & L) (b' & a' & Hb' & Ha' & L').
  rewrite Ha in Ha'. injection Ha' as <-.
  rewrite Hb in Hb'. injection Hb' as <-.
  exists a, b. repeat split; try assumption. now apply Qle_antisym.
Qed.

Lemma score_lt_not_eq (r : Responses) (e d : Destination) :
  score_lt r e d -> score_eq r e d -> False.
Proof.
  intros (a & b & Ha & Hb & L) (a' & b' & Ha' & Hb' & E).
  rewrite Ha in Ha'. injection Ha' as <-.
  rewrite Hb in Hb'. injection Hb' as <-.
  rewrite E in L. now apply Qlt_irrefl in L.
Qed.

Lemma score_lt_not_le (r : Responses) (e d : Destination) :
  score_lt r e d -> score_le r d e -> False.
Proof.
  intros (a & b & Ha & Hb & L) (b' & a' & Hb' & Ha' & E).
  rewrite Ha in Ha'. injection Ha' as <-.
  rewrite Hb in Hb'. injection Hb' as <-.
  now apply Qlt_not_le in L.
Qed.

(** ** Selection of the best destination *)

(** C1: on a catalog of complete records and well-formed answers the loop
    returns a result; a returned destination is in the catalog, passes the
    five filters and has a composite score at least that of every catalog
    entry that passes them; nothing is returned exactly when no entry passes
    the filters. *)
Theorem main_match_highest_score (catalog : list Destination) (r : Responses) :
  wf_responses r = true ->
  forallb complete catalog = true ->
  exists m, main_match catalog r = Ok m /\
    match m with
    | Some d => In d catalog /\ passes d r /\
                forall e, In e catalog -> passes e r -> score_le r e d
    | None => forall e, In e catalog -> is_eligible e r = Ok false
    end /\
    ((forall e, In e catalog -> ~ passes e r) -> m = None).
Proof.
  intros Hwf Hcat.
  pose proof (wf_responses_Answers r Hwf) as Hr.
  pose proof (catalog_Complete catalog Hcat) as HC.
  destruct (main_match_first_best r Hr catalog HC) as (m & Hm & Hinv).
  exists m. split; [assumption|].
  destruct m as [d|]; simpl in Hinv.
  - destruct Hinv as (p & s & E & Pd & Hp & Hs).
    assert (Hin : In d catalog).
    { rewrite E. apply in_or_app. right. now left. }
    split; [|intro Hnone; now destruct (Hnone d Hin)].
    repeat split; try assumption.
    intros e He Pe. rewrite E in He.
    apply in_app_or in He as [He | [<- | He]].
    + apply score_lt_le. auto.
    + destruct (composite_score_defined r Hr d (HC d Hin)) as [q Hq].
      now apply score_le_refl with q.
    + auto.
  - split; [assumption | reflexivity].
Qed.

Lemma main_match_highest_score_witness :
  wf_responses Sample.asia_trip = true /\
  forallb complete Sample.catalog = true /\
  exists m, main_match Sample.catalog Sample.asia_trip = Ok m /\
    match m with
    | Some d => In d Sample.catalog /\ passes d Sample.asia_trip /\
                forall e, In e Sample.catalog -> passes e Sample.asia_trip ->
                          score_le Sample.asia_trip e d
    | None => forall e, In e Sample.catalog ->
                        is_eligible e Sample.asia_trip = Ok false
    end /\
    ((forall e, In e Sample.catalog -> ~ passes e Sample.asia_trip) -> m = None).
Proof.
  split; [reflexivity|]. split; [reflexivity|].
  apply (main_match_highest_score Sample.catalog Sample.asia_trip); reflexivity.
Defined.

(** C4: when two catalog entries [e] (earlier) and [d] (later) pass the
    filters with equal composite scores, the loop returns the entry at a
    position [p ++ w :: s] of the catalog such that every passing entry
    before it scores strictly less and every passing entry after it scores
    no more; that position is never the one of [d]; when [e] and [d] share
    the greatest score it is at or before the one of [e], and it is the one
    of [e] when no passing entry before [e] has that score too. The other
    entries may stand anywhere. *)
Theorem first_seen_wins_ties (catalog : list Destination) (r : Responses)
  (l1 : list Destination) (e : Destination) (l2 : list Destination)
  (d : Destination) (l3 : list Destination) :
  wf_responses r = true ->
  forallb complete catalog = true ->
  catalog = l1 ++ e :: l2 ++ d :: l3 ->
  passes e r -> passes d r -> score_eq r e d ->
  exists w p s,
    main_match catalog r = Ok (Some w) /\
    catalog = p ++ w :: s /\
    (forall x, In x p -> passes x r -> score_lt r x w) /\
    (forall x, In x s -> passes x r -> score_le r x w) /\
    List.length p <> List.length (l1 ++ e :: l2) /\
    (score_le r w e ->
     (List.length p <= List.length l1)%nat /\
     ((forall x, In x l1 -> passes x r -> ~ score_eq r x e) ->
      p = l1 /\ w = e)).
Proof.
  intros Hwf Hcat Ecat Pe Pd Tie.
  pose proof (wf_responses_Answers r Hwf) as Hr.
  pose proof (catalog_Complete catalog Hcat) as HC.
  destruct (main_match_first_best r Hr catalog HC) as (m & Hm & Hinv).
  destruct m as [w|]; simpl in Hinv.
  2:{ assert (He : In e catalog).
      { rewrite Ecat. apply in_or_app. right. now left. }
      red in Pe. rewrite (Hinv e He) in Pe. discriminate. }
  destruct Hinv as (p & s & E & Pw & Hp & Hs).
  exists w, p, s. do 4 (split; [assumption|]). split.
  - intro L. rewrite E in Ecat.
    assert (w = d).
    { apply (same_position p w s (l1 ++ e :: l2) d l3); [|assumption].
      rewrite Ecat, <- app_assoc. reflexivity. }
    subst w.
    assert (In e p).
    { apply (earlier_in_prefix p d s l1 e (l2 ++ d :: l3) Ecat).
      rewrite L, length_app. simpl. lia. }
    apply (score_lt_not_eq r e d); auto.
  - intro Top. rewrite E in Ecat.
    assert (Hle : (List.length p <= List.length l1)%nat).
    { destruct (Nat.le_gt_cases (List.length p) (List.length l1)) as [|L];
        [assumption|].
      exfalso. apply (score_lt_not_le r e w); [|assumption].
      apply Hp; [|assumption].
      apply (earlier_in_prefix p w s l1 e (l2 ++ d :: l3) Ecat L). }
    split; [assumption|]. intro Hdistinct.
    destruct (Nat.eq_dec (List.length p) (List.length l1)) as [L|L].
    { split.
      - apply (same_prefix p w s l1 e (l2 ++ d :: l3) Ecat L).
      - apply (same_position p w s l1 e (l2 ++ d :: l3) Ecat L). }
    exfalso.
    assert (Hw : In w l1).
    { apply (earlier_in_prefix l1 e (l2 ++ d :: l3) p w s); [now symmetry | lia]. }
    apply (Hdistinct w Hw Pw). apply score_le_antisym; [assumption|].
    assert (He : In e (p ++ w :: s)).
    { rewrite Ecat. apply in_or_app. right. now left. }
    apply in_app_or in He as [He | [<- | He]].
    + exfalso. apply (score_lt_not_le r e w); auto.
    + assumption.
    + auto.
Qed.

Lemma first_seen_wins_ties_witness :
  wf_responses Sample.asia_trip = true /\
  forallb complete Sample.tied_catalog = true /\
  Sample.tied_catalog = [] ++ Sample.kyoto :: [Sample.hanoi] ++ Sample.nara :: [] /\
  passes Sample.kyoto Sample.asia_trip /\
  passes Sample.nara Sample.asia_trip /\
  score_eq Sample.asia_trip Sample.kyoto Sample.nara /\
  exists w p s,
    main_match Sample.tied_catalog Sample.asia_trip = Ok (Some w) /\
    Sample.tied_catalog = p ++ w :: s /\
    (forall x, In x p -> passes x Sample.asia_trip ->
               score_lt Sample.asia_trip x w) /\
    (forall x, In x s -> passes x Sample.asia_trip ->
               score_le Sample.asia_trip x w) /\
    List.length p <> List.length ([] ++ Sample.kyoto :: [Sample.hanoi]) /\
    (score_le Sample.asia_trip w Sample.kyoto ->
     (List.length p <= List.length (@nil Destination))%nat /\
     ((forall x, In x [] -> passes x Sample.asia_trip ->
                 ~ score_eq Sample.asia_trip x Sample.kyoto) ->
      p = [] /\ w = Sample.kyoto)).
Proof.
  assert (T : score_eq Sample.asia_trip Sample.kyoto Sample.nara).
  { exists (246 # 5), (246 # 5). repeat split; reflexivity. }
  repeat (split; [first [reflexivity | exact T]|]).
  apply (first_seen_wins_ties Sample.tied_catalog Sample.asia_trip
           [] Sample.kyoto [Sample.hanoi] Sample.nara []);
    first [reflexivity | exact T].
Defined.

(** ** No match *)

(** C6: when every catalog entry is rejected by the filters the loop ends
    with the result [None], and so it does on the empty catalog; the
    outcome is a value of the loop, not a raised exception. *)
Theorem no_match_is_a_result (catalog : list Destination) (r : Responses) :
  (forall d, In d catalog -> is_eligible d r = Ok false) ->
  main_match catalog r = Ok None /\ main_match [] r = Ok None.
Proof.
  intro H. split; [|reflexivity].
  now apply main_loop_skips.
Qed.

Lemma no_match_is_a_result_witness :
  wf_responses Sample.cold_trip = true /\
  (forall d, In d Sample.catalog -> is_eligible d Sample.cold_trip = Ok false) /\
  main_match Sample.catalog Sample.cold_trip = Ok None /\
  main_match [] Sample.cold_trip = Ok None.
Proof.
  assert (H : forall d, In d Sample.catalog ->
                        is_eligible d Sample.cold_trip = Ok false).
  { intros d [<- | [<- | [<- | [<- | []]]]]; reflexivity. }
  split; [reflexivity|]. split; [exact H|].
  apply (no_match_is_a_result Sample.catalog Sample.cold_trip H).
Defined.

(** ** The accumulator *)

(** C9: whenever the loop has gone through a prefix of the catalog, its
    accumulator is [None] or a destination of that prefix that passes the
    five filters; the run on the whole catalog continues from that
    accumulator, and a destination it returns is a catalog entry that passes
    the filters. *)
Theorem accumulator_invariant (r : Responses) (prefix suffix : list Destination)
  (acc : option Destination) :
  main_match prefix r = Ok acc ->
  (acc = None \/ exists d, acc = Some d /\ In d prefix /\ passes d r) /\
  main_match (prefix ++ suffix) r = main_loop r acc suffix /\
  (forall d, main_match (prefix ++ suffix) r = Ok (Some d) ->
             In d (prefix ++ suffix) /\ passes d r).
Proof.
  intro H. split; [|split].
  - now apply main_loop_keeps_or_takes.
  - unfold main_match in *. now rewrite main_loop_app, H.
  - intros d Hd.
    destruct (main_loop_keeps_or_takes _ _ _ _ Hd) as [? | (x & E & Hx & Px)];
      [discriminate|].
    injection E as <-. now split.
Qed.

Lemma accumulator_invariant_witness :
  main_match [Sample.kyoto; Sample.hanoi] Sample.asia_trip = Ok (Some Sample.kyoto) /\
  (Some Sample.kyoto = None \/
   exists d, Some Sample.kyoto = Some d /\ In d [Sample.kyoto; Sample.hanoi] /\
             passes d Sample.asia_trip) /\
  main_match ([Sample.kyoto; Sample.hanoi] ++ [Sample.denver; Sample.cairo])
             Sample.asia_trip
  = main_loop Sample.asia_trip (Some Sample.kyoto) [Sample.denver; Sample.cairo] /\
  (forall d, main_match ([Sample.kyoto; Sample.hanoi] ++ [Sample.denver; Sample.cairo])
                        Sample.asia_trip = Ok (Some d) ->
             In d ([Sample.kyoto; Sample.hanoi] ++ [Sample.denver; Sample.cairo]) /\
             passes d Sample.asia_trip).
Proof.
  split; [reflexivity|].
  apply (accumulator_invariant Sample.asia_trip [Sample.kyoto; Sample.hanoi]
           [Sample.denver; Sample.cairo] (Some Sample.kyoto)).
  reflexivity.
Defined.

(** ** Empty selections *)

Lemma no_continent_no_candidate (d : Destination) (r : Responses) :
  continent r = [] -> is_eligible d r = Ok false.
Proof. intro E. unfold is_eligible. now rewrite E. Qed.

Lemma no_season_no_score (d : Destination) (r : Responses) :
  season r = [] -> season_score d r = Raise MaxValueError.
Proof. intro E. unfold season_score. now rewrite E. Qed.

(** C7: with no continent chosen every destination is rejected by the
    first filter and the loop ends with [None], whatever the catalog; with
    no season chosen the season score of any destination is the exception
    of [max] on an empty sequence, and the loop raises it as soon as a
    second destination passes the filters. *)
Theorem empty_selections (catalog : list Destination) (r : Responses) :
  (continent r = [] ->
   (forall d, is_eligible d r = Ok false) /\ main_match catalog r = Ok None) /\
  (season r = [] ->
   (forall d, season_score d r = Raise MaxValueError) /\
   forall l1 a l2 b l3,
     catalog = l1 ++ a :: l2 ++ b :: l3 ->
     (forall x, In x (l1 ++ l2) -> is_eligible x r = Ok false) ->
     passes a r -> passes b r ->
     main_match catalog r = Raise MaxValueError).
Proof.
  split; intro E.
  - split; [intro d; now apply no_continent_no_candidate|].
    apply main_loop_skips. intros d _. now apply no_continent_no_candidate.
  - split; [intro d; now apply no_season_no_score|].
    intros l1 a l2 b l3 -> Hskip Pa Pb.
    unfold main_match.
    rewrite main_loop_app, main_loop_skips
      by (intros x Hx; apply Hskip, in_or_app; now left).
    cbn [bind main_loop]. unfold step at 1. rewrite Pa. cbn [bind negb].
    rewrite main_loop_app, main_loop_skips
      by (intros x Hx; apply Hskip, in_or_app; now right).
    cbn [bind main_loop]. unfold step at 1. rewrite Pb. cbn [bind negb].
    unfold challenge. now rewrite no_season_no_score.
Qed.

Lemma empty_selections_witness :
  (continent Sample.no_continent = [] /\
   (forall d, is_eligible d Sample.no_continent = Ok false) /\
   main_match Sample.catalog Sample.no_continent = Ok None) /\
  (season Sample.no_season = [] /\
   Sample.catalog = [] ++ Sample.kyoto :: [] ++ Sample.hanoi
                       :: [Sample.denver; Sample.cairo] /\
   passes Sample.kyoto Sample.no_season /\
   passes Sample.hanoi Sample.no_season /\
   main_match Sample.catalog Sample.no_season = Raise MaxValueError).
Proof.
  split.
  - split; [reflexivity|].
    apply (proj1 (empty_selections Sample.catalog Sample.no_continent)).
    reflexivity.
  - repeat (split; [reflexivity|]).
    apply (proj2 (proj2 (empty_selections Sample.catalog Sample.no_season)
                          eq_refl)
             [] Sample.kyoto [] Sample.hanoi [Sample.denver; Sample.cairo]);
      try reflexivity.
    intros x [].
Defined.

(** ** Repeated choices *)

Section SameChoices.

Variables r r' : Responses.
Hypothesis S : same_choices r r'.

Lemma is_eligible_same (d : Destination) : is_eligible d r = is_eligible d r'.
Proof.
  destruct S as [Hc _ Hcost Hcrime Hkids Hclimate _].
  unfold is_eligible.
  now rewrite (mem_same_set _ _ _ Hc), Hcost, Hcrime, Hkids, Hclimate.
Qed.

Lemma season_score_same (d : Destination) :
  same_score (season_score d r) (season_score d r').
Proof.
  destruct S as [_ Hs _ _ _ _ _]. unfold season_score.
  pose proof (py_max_cases (fun s => get_season_factor d (lower s)) (season r))
    as C.
  pose proof (py_max_cases (fun s => get_season_factor d (lower s)) (season r'))
    as C'.
  cbv beta in C, C'.
  destruct C
    as [[E ->] | [[(x & Hx & Hn) ->] | (Hne & Hall & q & -> & (y & Hy & Hq) & Hub)]];
  destruct C'
    as [[E' ->] | [[(x' & Hx' & Hn') ->] | (Hne' & Hall' & q' & -> & (y' & Hy' & Hq') & Hub')]];
  simpl; try reflexivity.
  - apply Hs in Hx'. rewrite E in Hx'. destruct Hx'.
  - apply Hs in Hy'. rewrite E in Hy'. destruct Hy'.
  - apply Hs in Hx. rewrite E' in Hx. destruct Hx.
  - apply Hs in Hx. destruct (Hall' x Hx). congruence.
  - apply Hs in Hy. rewrite E' in Hy. destruct Hy.
  - apply Hs in Hx'. destruct (Hall x' Hx'). congruence.
  - apply Qle_antisym.
    + apply (Hub' y q); [now apply Hs | assumption].
    + apply (Hub y' q'); [now apply Hs | assumption].
Qed.

Lemma interest_score_same (d : Destination) :
  interest_score d r = interest_score d r'.
Proof. unfold interest_score. now rewrite (same_interests r r' S). Qed.

Lemma challenge_same (m d : Destination) : challenge m d r = challenge m d r'.
Proof.
  unfold challenge.
  pose proof (season_score_same m) as Hm.
  pose proof (season_score_same d) as Hd.
  rewrite <- !interest_score_same.
  destruct (season_score m r) as [sm|em], (season_score m r') as [sm'|em'];
    simpl in Hm; try contradiction; cbn [bind]; [|congruence].
  destruct (season_score d r) as [sd|ed], (season_score d r') as [sd'|ed'];
    simpl in Hd; try contradiction; cbn [bind]; [|congruence].
  destruct (interest_score m r) as [im|]; cbn [bind]; [|reflexivity].
  destruct (interest_score d r) as [id|]; cbn [bind]; [|reflexivity].
  now rewrite Hm, Hd.
Qed.

Lemma step_same (m : option Destination) (d : Destination) :
  step r m d = step r' m d.
Proof.
  unfold step. rewrite is_eligible_same.
  destruct (is_eligible d r') as [[|]|]; cbn [bind negb]; try reflexivity.
  destruct m as [w|]; [|reflexivity]. now rewrite challenge_same.
Qed.

Lemma main_loop_same (l : list Destination) :
  forall m, main_loop r m l = main_loop r' m l.
Proof.
  induction l as [|d l IH]; intro m; simpl; [reflexivity|].
  rewrite step_same. destruct (step r' m d); cbn [bind]; [apply IH | reflexivity].
Qed.

End SameChoices.

(** The multiple-choice question accepts a choice typed twice and returns
    it twice. *)
Example repeated_choice_accepted :
  collect_options CONTINENT_OPTIONS [1; 1]%Z = Some ["Asia"; "Asia"].
Proof. reflexivity. Qed.

(** C10: two answer sets whose continent selections have the same members
    and whose season selections have the same members, and that agree on
    every other answer, give the same result on every catalog, exception or
    value; so a repeated choice changes neither the selected destination nor
    the report. *)
Theorem repeated_choices_ignored (catalog : list Destination) (r r' : Responses) :
  same_choices r r' ->
  main_match catalog r = main_match catalog r' /\
  main_output catalog r = main_output catalog r'.
Proof.
  intro S.
  assert (H : main_match catalog r = main_match catalog r')
    by apply (main_loop_same r r' S).
  split; [assumption|]. unfold main_output. now rewrite H.
Qed.

Lemma repeated_choices_ignored_witness :
  same_choices Sample.asia_trip Sample.asia_trip_twice /\
  main_match Sample.catalog Sample.asia_trip
  = main_match Sample.catalog Sample.asia_trip_twice /\
  main_output Sample.catalog Sample.asia_trip
  = main_output Sample.catalog Sample.asia_trip_twice.
Proof.
  assert (S : same_choices Sample.asia_trip Sample.asia_trip_twice).
  { constructor; try reflexivity; intro x; simpl; tauto. }
  split; [exact S|].
  apply (repeated_choices_ignored Sample.catalog _ _ S).
Defined.

(** ** Relaxing one answer *)

(** C5: a destination that passes the filters still passes them after any
    one relaxation of the answers: a crime tolerance further along
    Low, Average, High, a cost tolerance with at least as many symbols, one
    more continent, one more season, or no children on the trip. *)
Theorem relaxation_keeps_eligible (d : Destination) (r r' : Responses) :
  relaxation r r' -> passes d r -> passes d r'.
Proof.
  unfold passes. intros R H.
  apply is_eligible_true_iff in H
    as (Hcont & (i & j & Hi & Hj & Hij) & Hcost & Hkids & Hclim).
  apply is_eligible_true_iff.
  destruct R as [v j0 j' Hj0 Hj' Hle | v Hle | c | s | Hyes]; simpl.
  - rewrite Hj in Hj0. injection Hj0 as <-.
    repeat split; try assumption.
    exists i, j'. repeat split; try assumption. lia.
  - unfold cost_ordinal in Hle. repeat split; try assumption; [|lia].
    exists i, j. now repeat split.
  - repeat split; try assumption.
    + apply in_or_app. now left.
    + exists i, j. now repeat split.
  - repeat split; try assumption. exists i, j. now repeat split.
  - repeat split; try assumption; [|discriminate].
    exists i, j. now repeat split.
Qed.

Lemma relaxation_keeps_eligible_witness :
  relaxation Sample.asia_trip (with_crime "High" Sample.asia_trip) /\
  passes Sample.hanoi Sample.asia_trip /\
  passes Sample.hanoi (with_crime "High" Sample.asia_trip).
Proof.
  assert (R : relaxation Sample.asia_trip (with_crime "High" Sample.asia_trip)).
  { apply (raise_crime Sample.asia_trip "High" 1 2); [reflexivity | reflexivity | lia]. }
  split; [exact R|]. split; [reflexivity|].
  apply (relaxation_keeps_eligible Sample.hanoi _ _ R). reflexivity.
Defined.

(** ** The filter stage, condition by condition *)

Lemma first_four_filters_iff (d : Destination) (r : Responses) :
  Answers r ->
  (In (title (get_continent d)) (continent r) /\
   (exists i j, index CRIME_OPTIONS (title (get_crime d)) = Ok i /\
                index CRIME_OPTIONS (crime r) = Ok j /\ (i <= j)%nat) /\
   (String.length (get_cost d) <= String.length (cost r))%nat /\
   (kids r = "Yes" -> is_kid_friendly d = true))
  <-> first_four_filters d r.
Proof.
  intro Hr.
  pose proof (index_title CRIME_OPTIONS (get_crime d) titled_CRIME) as Hd.
  pose proof (index_listed CRIME_OPTIONS (crime r) titled_CRIME
                (crime_listed r Hr)) as Hc.
  fold (crime_ordinal (get_crime d)) in Hd. fold (crime_ordinal (crime r)) in Hc.
  split.
  - intros (Hcont & (i & j & Hi & Hj & Hij) & Hcost & Hkids).
    constructor; try assumption.
    + exists (title (get_continent d)). split; [assumption|].
      unfold same_label. now rewrite lower_title.
    + exists i, j. rewrite Hi in Hd. rewrite Hj in Hc.
      destruct (crime_ordinal (get_crime d)); [|discriminate].
      destruct (crime_ordinal (crime r)); [|discriminate].
      injection Hd as <-. injection Hc as <-. now repeat split.
  - intros [(c & Hin & Hsame) (i & j & Hi & Hj & Hij) Hcost Hkids].
    repeat split; try assumption.
    + assert (Tc : title c = c)
        by (apply titled_CONTINENT, (continents_listed r Hr), Hin).
      apply (title_eq_iff _ _ Tc) in Hsame. now rewrite Hsame.
    + exists i, j. rewrite Hi in Hd. rewrite Hj in Hc. now repeat split.
Qed.

Lemma is_eligible_stored_iff (d : Destination) (r : Responses) :
  Answers r -> (is_eligible d r = Ok true <-> eligible_stored d r).
Proof.
  intro Hr. unfold eligible_stored.
  rewrite is_eligible_true_iff, <- (first_four_filters_iff d r Hr).
  intuition congruence.
Qed.

(** C2: on well-formed answers, a destination record, whose climate is
    stored in lower case, passes the filter stage exactly when the five
    conditions hold: its continent is one of the chosen ones, its crime
    level is at most the tolerated one in Low, Average, High, its cost is at
    most the tolerated one in number of symbols, it is kid friendly if
    children travel, and its climate is the preferred climate up to letter
    case. *)
Theorem passes_iff_eligible_spec (d : Destination) (r : Responses) :
  wf_responses r = true -> climate_normalised d = true ->
  (passes d r <-> eligible_spec d r).
Proof.
  intros Hwf Hn. unfold passes.
  rewrite (is_eligible_stored_iff d r (wf_responses_Answers r Hwf)).
  apply String.eqb_eq in Hn.
  unfold eligible_stored, eligible_spec, same_label.
  split; intros [H4 Hc]; (split; [assumption|]).
  - now rewrite Hc, lower_idem.
  - now rewrite <- Hn.
Qed.

Lemma passes_iff_eligible_spec_witness :
  wf_responses Sample.asia_trip = true /\
  climate_normalised Sample.kyoto = true /\
  (passes Sample.kyoto Sample.asia_trip <->
   eligible_spec Sample.kyoto Sample.asia_trip).
Proof.
  split; [reflexivity|]. split; [reflexivity|].
  apply (passes_iff_eligible_spec Sample.kyoto Sample.asia_trip); reflexivity.
Defined.

(** ** The composite score *)

(** C3: on well-formed answers and a complete record, the season score is
    the greatest of the record's factors for the chosen seasons, the
    interest score is the sum over the interest keys of the answer times the
    record's score, the composite score is their product, and a challenger
    replaces the current match exactly when its composite score is the
    greater of the two, whatever their signs. *)
Theorem composite_score_formula (d : Destination) (r : Responses) :
  wf_responses r = true ->
  complete d = true ->
  exists s i,
    season_score d r = Ok s /\
    is_max_over (fun x => get_season_factor d (lower x)) (season r) s /\
    interest_score d r = Ok i /\
    (exists (u : string -> Z) (w : string -> Q),
        (forall k, In k INTEREST_KEYS ->
                   interest_of (interests r) k = Some (u k) /\
                   get_interest_score d k = Some (w k)) /\
        i == dot_product u w) /\
    composite_score d r = Ok (s * i) /\
    forall m, complete m = true ->
      exists pm, composite_score m r = Ok pm /\
        (pm < s * i -> challenge m d r = Ok d) /\
        (s * i <= pm -> challenge m d r = Ok m).
Proof.
  intros Hwf Hd.
  pose proof (wf_responses_Answers r Hwf) as Hr.
  apply complete_Complete in Hd.
  destruct (season_score_defined r Hr d Hd) as (s & Hs & Hmax).
  destruct (interest_score_defined r Hr d Hd) as (i & Hi & Hdot).
  assert (Hc : composite_score d r = Ok (s * i)).
  { unfold composite_score. now rewrite Hs, Hi. }
  exists s, i. repeat split; try assumption; try apply Hmax.
  intros m Hm. apply complete_Complete in Hm.
  destruct (composite_score_defined r Hr m Hm) as [pm Hpm].
  exists pm. split; [assumption|].
  rewrite (challenge_scores m d r pm (s * i) Hpm Hc).
  split; intro L.
  - apply Qgtb_lt in L. now rewrite L.
  - apply Qgtb_le in L. now rewrite L.
Qed.

Lemma composite_score_formula_witness :
  wf_responses Sample.asia_trip = true /\
  complete Sample.hanoi = true /\
  exists s i,
    season_score Sample.hanoi Sample.asia_trip = Ok s /\
    is_max_over (fun x => get_season_factor Sample.hanoi (lower x))
                (season Sample.asia_trip) s /\
    interest_score Sample.hanoi Sample.asia_trip = Ok i /\
    (exists (u : string -> Z) (w : string -> Q),
        (forall k, In k INTEREST_KEYS ->
                   interest_of (interests Sample.asia_trip) k = Some (u k) /\
                   get_interest_score Sample.hanoi k = Some (w k)) /\
        i == dot_product u w) /\
    composite_score Sample.hanoi Sample.asia_trip = Ok (s * i) /\
    forall m, complete m = true ->
      exists pm, composite_score m Sample.asia_trip = Ok pm /\
        (pm < s * i -> challenge m Sample.hanoi Sample.asia_trip = Ok Sample.hanoi) /\
        (s * i <= pm -> challenge m Sample.hanoi Sample.asia_trip = Ok m).
Proof.
  split; [reflexivity|]. split; [reflexivity|].
  apply (composite_score_formula Sample.hanoi Sample.asia_trip); reflexivity.
Defined.

(** A negative composite score loses to a positive one: a season score
    of 2 with an interest score of -3 against 1 and 1. *)
Example negative_composite_loses : Qgtb (1 * 1) (2 * -3) = true.
Proof. reflexivity. Qed.

(** ** The report *)

(** C8, as stated, fails: when nothing matches, the line shown after the
    thanks is [str(None)], the printed form of the value that stands for
    "no match". *)
Lemma no_match_prints_None :
  ~ (forall catalog r out,
        main_match catalog r = Ok None ->
        main_output catalog r = Ok out ->
        ~ In str_None out).
Proof.
  intro H.
  apply (H [] Sample.asia_trip [THANKS; str_None] eq_refl eq_refl).
  right. now left.
Qed.

(** C8, as it holds of the code: on a complete catalog and well-formed
    answers the report is the line of thanks followed by one line, which is
    the name of the selected destination or, when no destination passes the
    filters, the text [None]; no exception is raised. *)
Theorem report_name_or_None (catalog : list Destination) (r : Responses) :
  wf_responses r = true ->
  forallb complete catalog = true ->
  exists line, main_output catalog r = Ok [THANKS; line] /\
    ((exists d, main_match catalog r = Ok (Some d) /\ In d catalog /\
                passes d r /\ line = get_name d) \/
     (main_match catalog r = Ok None /\
      (forall d, In d catalog -> is_eligible d r = Ok false) /\
      line = "None")).
Proof.
  intros Hwf Hcat.
  pose proof (wf_responses_Answers r Hwf) as Hr.
  pose proof (catalog_Complete catalog Hcat) as HC.
  destruct (main_match_first_best r Hr catalog HC) as (m & Hm & Hinv).
  unfold main_output. rewrite Hm. cbn [bind report].
  destruct m as [d|]; simpl in Hinv.
  - exists (get_name d). split; [reflexivity|]. left.
    destruct Hinv as (p & s & E & Pd & _).
    exists d. repeat split; try assumption.
    rewrite E. apply in_or_app. right. now left.
  - exists str_None. split; [reflexivity|]. right. now repeat split.
Qed.

Lemma report_name_or_None_witness :
  wf_responses Sample.cold_trip = true /\
  forallb complete Sample.catalog = true /\
  exists line, main_output Sample.catalog Sample.cold_trip = Ok [THANKS; line] /\
    ((exists d, main_match Sample.catalog Sample.cold_trip = Ok (Some d) /\
                In d Sample.catalog /\ passes d Sample.cold_trip /\
                line = get_name d) \/
     (main_match Sample.catalog Sample.cold_trip = Ok None /\
      (forall d, In d Sample.catalog ->
                 is_eligible d Sample.cold_trip = Ok false) /\
      line = "None")).
Proof.
  split; [reflexivity|]. split; [reflexivity|].
  apply (report_name_or_None Sample.catalog Sample.cold_trip); reflexivity.
Defined.

(** * The questions and [main] *)

(** ** Replies *)

Lemma after_after {A : Type} (s1 s2 : list event) (m : reply A) :
  after s1 (after s2 m) = after (s1 ++ s2) m.
Proof. destruct m; simpl; now rewrite app_assoc. Qed.

Lemma satisfies_after {A : Type} (shown : list event) (m : reply A)
  (R : A -> list string -> list event -> Prop)
  (F : failure -> list event -> Prop) :
  satisfies m (fun a rest out => R a rest (shown ++ out))
              (fun f out => F f (shown ++ out)) ->
  satisfies (after shown m) R F.
Proof. now destruct m. Qed.

Lemma satisfies_and_then {A B : Type} (m : console A) (k : A -> console B)
  (stdin : list string)
  (R : B -> list string -> list event -> Prop)
  (F : failure -> list event -> Prop) :
  satisfies (m stdin)
    (fun a mid o1 =>
       satisfies (k a mid) (fun b rest o2 => R b rest (o1 ++ o2))
                           (fun f o2 => F f (o1 ++ o2)))
    F ->
  satisfies (and_then m k stdin) R F.
Proof.
  unfold and_then. destruct (m stdin) as [a mid o1 | f o1]; simpl; [|auto].
  apply satisfies_after.
Qed.

Lemma satisfies_print {B : Type} (text : string) (k : unit -> console B)
  (stdin : list string)
  (R : B -> list string -> list event -> Prop)
  (F : failure -> list event -> Prop) :
  satisfies (k tt stdin) (fun b rest out => R b rest (Print text :: out))
                         (fun f out => F f (Print text :: out)) ->
  satisfies (and_then (print text) k stdin) R F.
Proof. intro H. apply satisfies_and_then. exact H. Qed.

Lemma satisfies_input {B : Type} (prompt : string) (k : string -> console B)
  (stdin : list string)
  (R : B -> list string -> list event -> Prop)
  (F : failure -> list event -> Prop) :
  match stdin with
  | [] => F EOFError [Prompt prompt]
  | line :: rest =>
      satisfies (k line rest) (fun b rest' out => R b rest' (Prompt prompt :: out))
                              (fun f out => F f (Prompt prompt :: out))
  end ->
  satisfies (and_then (input prompt) k stdin) R F.
Proof. intro H. apply satisfies_and_then. now destruct stdin. Qed.

Lemma satisfies_weaken {A : Type} (m : reply A)
  (R R' : A -> list string -> list event -> Prop)
  (F F' : failure -> list event -> Prop) :
  (forall a rest out, R a rest out -> R' a rest out) ->
  (forall f out, F f out -> F' f out) ->
  satisfies m R F -> satisfies m R' F'.
Proof. destruct m; simpl; auto. Qed.

(** ** The loop that asks until a line is accepted *)

Section AskLoop.

Context {A : Type} (shown : list event) (check : string -> A + event).
Context (valid : string -> bool) (message : string -> event).

Hypothesis refused_message : forall l, valid l = false -> check l = inr (message l).
Hypothesis valid_accepted : forall l, valid l = true -> exists a, check l = inl a.

Lemma ask_all_refused (stdin : list string) :
  (forall l, In l stdin -> valid l = false) ->
  ask shown check stdin = Failed EOFError (rounds shown message stdin ++ shown).
Proof.
  induction stdin as [|line stdin IH]; intro H; simpl; [reflexivity|].
  rewrite (refused_message line) by (apply H; now left).
  rewrite IH by (intros l Hl; apply H; now right).
  simpl. now rewrite <- !app_assoc.
Qed.

Lemma ask_first_accepted (refused : list string) (line : string)
  (rest : list string) (a : A) :
  (forall l, In l refused -> valid l = false) ->
  check line = inl a ->
  ask shown check (refused ++ line :: rest)
  = Returned a rest (rounds shown message refused ++ shown).
Proof.
  intros H Ha. induction refused as [|b refused IH]; simpl.
  - now rewrite Ha.
  - rewrite (refused_message b) by (apply H; now left).
    rewrite IH by (intros l Hl; apply H; now right).
    simpl. now rewrite <- !app_assoc.
Qed.

Lemma check_inl_valid (l : string) (a : A) : check l = inl a -> valid l = true.
Proof.
  intro H. destruct (valid l) eqn:V; [reflexivity|].
  rewrite (refused_message l V) in H. discriminate.
Qed.

Lemma ask_returned (stdin : list string) (a : A) (rest : list string)
  (out : list event) :
  ask shown check stdin = Returned a rest out ->
  exists refused line,
    stdin = refused ++ line :: rest /\
    (forall l, In l refused -> valid l = false) /\
    check line = inl a /\
    out = rounds shown message refused ++ shown.
Proof.
  revert out. induction stdin as [|line stdin IH]; intros out H; simpl in H;
    [discriminate|].
  destruct (check line) as [a'|msg] eqn:C.
  - injection H as <- <- <-. exists [], line. repeat split; auto.
    intros l [].
  - destruct (ask shown check stdin) as [a' rest' out'|] eqn:E; simpl in H;
      [|discriminate].
    injection H as <- <- <-.
    destruct (IH out' eq_refl) as (refused & l0 & -> & Href & Hc & ->).
    assert (V : valid line = false).
    { destruct (valid line) eqn:V; [|reflexivity].
      destruct (valid_accepted line V) as [x Hx]. congruence. }
    exists (line :: refused), l0. repeat split; auto.
    + intros l [<- | Hl]; auto.
    + rewrite (refused_message line V) in C. injection C as <-.
      simpl. now rewrite <- !app_assoc.
Qed.

Lemma ask_failed (stdin : list string) (f : failure) (out : list event) :
  ask shown check stdin = Failed f out ->
  f = EOFError /\ forall l, In l stdin -> valid l = false.
Proof.
  revert out. induction stdin as [|line stdin IH]; intros out H; simpl in H.
  - injection H as <- <-. split; [reflexivity | intros l []].
  - destruct (check line) as [a'|msg] eqn:C; [discriminate|].
    destruct (ask shown check stdin) as [|f' out'] eqn:E; simpl in H;
      [discriminate|].
    injection H as <- <-. destruct (IH out' eq_refl) as [-> Hall].
    split; [reflexivity|]. intros l [<- | Hl]; [|auto].
    destruct (valid line) eqn:V; [|reflexivity].
    destruct (valid_accepted line V) as [x Hx]. congruence.
Qed.

Lemma ask_reads_a_line (stdin : list string) (a : A) (rest : list string)
  (out : list event) :
  ask shown check stdin = Returned a rest out ->
  (List.length rest < List.length stdin)%nat.
Proof.
  intro H. destruct (ask_returned _ _ _ _ H) as (refused & line & -> & _).
  rewrite length_app. simpl. lia.
Qed.

End AskLoop.

(** ** The four loops are such loops *)

Section Loops.

Variable py_int : string -> option Z.

Lemma input_numeric_options_ask (gen_input : string) (options stdin : list string) :
  input_numeric_options py_int gen_input options stdin
  = ask (basic_input_shows gen_input (enumerate 1 options))
        (check_numeric py_int options) stdin.
Proof.
  induction stdin as [|line stdin IH]; simpl; [reflexivity|].
  unfold check_numeric, refusal_numeric. rewrite IH.
  destruct (py_int line) as [n|]; [|reflexivity].
  destruct (in_range options n); [|reflexivity].
  now destruct (nth_error options (Z.to_nat (n - 1))).
Qed.

Lemma input_str_options_ask (gen_input : string)
  (options : list (string * string)) (stdin : list string) :
  input_str_options gen_input options stdin
  = ask (basic_input_shows gen_input
           (map (fun ko => (PStr (fst ko), snd ko)) options))
        (check_str options) stdin.
Proof.
  induction stdin as [|line stdin IH]; simpl; [reflexivity|].
  unfold check_str. rewrite IH.
  now destruct (mem line (map fst options)).
Qed.

Lemma input_multiple_numeric_options_ask (gen_input : string)
  (options stdin : list string) :
  input_multiple_numeric_options py_int gen_input options stdin
  = ask (basic_input_shows gen_input (enumerate 1 options))
        (check_multiple py_int options) stdin.
Proof.
  induction stdin as [|line stdin IH]; simpl; [reflexivity|].
  unfold check_multiple. rewrite IH.
  destruct (ints py_int (split "," line)) as [picks|]; [|reflexivity].
  now destruct (collect_options options picks).
Qed.

Lemma input_interest_question_ask (label : string) (stdin : list string) :
  input_interest_question py_int label stdin
  = ask [Print ("How much do you like " ++ label ++ "? (-5 to 5)"); Prompt "> "]
        (check_interest py_int) stdin.
Proof.
  induction stdin as [|line stdin IH]; simpl; [reflexivity|].
  unfold check_interest, refusal_numeric. rewrite IH.
  destruct (py_int line) as [n|]; [|reflexivity].
  now destruct ((-5 <=? n)%Z && (n <=? 5)%Z)%bool.
Qed.

(** Each round of the three option questions is a call of [basic_input]
    followed by the test of the line it returns. *)
Lemma basic_input_reads (gen_input : string) (options : list (pyval * string))
  (stdin : list string) :
  basic_input gen_input options stdin
  = match stdin with
    | [] => Failed EOFError (basic_input_shows gen_input options)
    | line :: stdin' => Returned line stdin' (basic_input_shows gen_input options)
    end.
Proof. now destruct stdin. Qed.

Lemma input_numeric_options_round (gen_input : string)
  (options stdin : list string) :
  input_numeric_options py_int gen_input options stdin
  = match basic_input gen_input (enumerate 1 options) stdin with
    | Failed f out => Failed f out
    | Returned response stdin' out =>
        match check_numeric py_int options response with
        | inl o => Returned o stdin' out
        | inr message =>
            after (out ++ [message])
                  (input_numeric_options py_int gen_input options stdin')
        end
    end.
Proof.
  rewrite basic_input_reads. destruct stdin as [|line stdin]; [reflexivity|].
  rewrite !input_numeric_options_ask. reflexivity.
Qed.

Lemma input_str_options_round (gen_input : string)
  (options : list (string * string)) (stdin : list string) :
  input_str_options gen_input options stdin
  = match basic_input gen_input
            (map (fun ko => (PStr (fst ko), snd ko)) options) stdin with
    | Failed f out => Failed f out
    | Returned response stdin' out =>
        match check_str options response with
        | inl o => Returned o stdin' out
        | inr message =>
            after (out ++ [message]) (input_str_options gen_input options stdin')
        end
    end.
Proof.
  rewrite basic_input_reads. destruct stdin as [|line stdin]; [reflexivity|].
  rewrite !input_str_options_ask. reflexivity.
Qed.

Lemma input_multiple_numeric_options_round (gen_input : string)
  (options stdin : list string) :
  input_multiple_numeric_options py_int gen_input options stdin
  = match basic_input gen_input (enumerate 1 options) stdin with
    | Failed f out => Failed f out
    | Returned response stdin' out =>
        match check_multiple py_int options response with
        | inl o => Returned o stdin' out
        | inr message =>
            after (out ++ [message])
                  (input_multiple_numeric_options py_int gen_input options stdin')
        end
    end.
Proof.
  rewrite basic_input_reads. destruct stdin as [|line stdin]; [reflexivity|].
  rewrite !input_multiple_numeric_options_ask. reflexivity.
Qed.

End Loops.

(** ** Option numbers *)

Lemma in_range_nth_error (options : list string) (n : Z) :
  in_range options n = true ->
  nth_error options (Z.to_nat (n - 1)) = Some (option_at options n) /\
  In (option_at options n) options.
Proof.
  unfold in_range, option_at. intro H.
  apply andb_prop in H as [H1 H2].
  apply Z.leb_le in H1. apply Z.leb_le in H2.
  assert (L : (Z.to_nat (n - 1) < List.length options)%nat) by lia.
  split; [now apply nth_error_nth' | now apply nth_In].
Qed.

Lemma collect_options_in_range (options : list string) (picks : list Z) :
  collect_options options picks
  = if forallb (in_range options) picks
    then Some (map (option_at options) picks)
    else None.
Proof.
  induction picks as [|p picks IH]; [reflexivity|].
  cbn [collect_options forallb map]. fold (in_range options p).
  destruct (in_range options p) eqn:R; [|reflexivity].
  destruct (in_range_nth_error options p R) as [-> _].
  rewrite IH. cbn [andb].
  now destruct (forallb (in_range options) picks).
Qed.

Lemma split_not_nil (sep : ascii) (s : string) : split sep s <> [].
Proof.
  destruct s as [|c s]; simpl; [discriminate|].
  destruct (Ascii.eqb c sep); [discriminate|].
  destruct (split sep s); discriminate.
Qed.

Lemma ints_length (py_int : string -> option Z) (pieces : list string)
  (ns : list Z) :
  ints py_int pieces = Some ns -> List.length ns = List.length pieces.
Proof.
  revert ns; induction pieces as [|p pieces IH]; intros ns H; simpl in H.
  - now injection H as <-.
  - destruct (py_int p); [|discriminate].
    destruct (ints py_int pieces) as [ns'|]; [|discriminate].
    injection H as <-. simpl. f_equal. now apply IH.
Qed.

(** ** What each loop accepts *)

Section Checks.

Variable py_int : string -> option Z.

Lemma check_numeric_refused (options : list string) (l : string) :
  valid_numeric py_int options l = false ->
  check_numeric py_int options l
  = inr (refusal_numeric py_int " is not a valid input." l).
Proof.
  unfold valid_numeric, check_numeric.
  destruct (py_int l) as [n|]; [|reflexivity]. now intros ->.
Qed.

Lemma check_numeric_accepted (options : list string) (l : string) :
  valid_numeric py_int options l = true ->
  exists o, check_numeric py_int options l = inl o.
Proof.
  unfold valid_numeric, check_numeric.
  destruct (py_int l) as [n|]; [|discriminate]. intro R. rewrite R.
  destruct (in_range_nth_error options n R) as [-> _]. now eexists.
Qed.

Lemma check_str_refused (options : list (string * string)) (l : string) :
  valid_str options l = false ->
  check_str options l = inr (Print (try_again l " is not a valid.")).
Proof. unfold valid_str, check_str. now intros ->. Qed.

Lemma check_str_accepted (options : list (string * string)) (l : string) :
  valid_str options l = true -> exists o, check_str options l = inl o.
Proof. unfold valid_str, check_str. intros ->. now eexists. Qed.

Lemma check_multiple_refused (options : list string) (l : string) :
  valid_multiple py_int options l = false ->
  check_multiple py_int options l = inr (Print (try_again l " is not a valid.")).
Proof.
  unfold valid_multiple, check_multiple.
  destruct (ints py_int (split "," l)) as [picks|]; [|reflexivity].
  rewrite collect_options_in_range. now intros ->.
Qed.

Lemma check_multiple_accepted (options : list string) (l : string) :
  valid_multiple py_int options l = true ->
  exists o, check_multiple py_int options l = inl o.
Proof.
  unfold valid_multiple, check_multiple.
  destruct (ints py_int (split "," l)) as [picks|]; [|discriminate].
  rewrite collect_options_in_range. intros ->. now eexists.
Qed.

Lemma check_interest_refused (l : string) :
  valid_interest py_int l = false ->
  check_interest py_int l = inr (refusal_numeric py_int " is not valid." l).
Proof.
  unfold valid_interest, check_interest.
  destruct (py_int l) as [n|]; [|reflexivity]. now intros ->.
Qed.

Lemma check_interest_accepted (l : string) :
  valid_interest py_int l = true -> exists o, check_interest py_int l = inl o.
Proof.
  unfold valid_interest, check_interest.
  destruct (py_int l) as [n|]; [|discriminate]. intros ->. now eexists.
Qed.

End Checks.

(** ** The four questions, line by line *)

(** X1: [input_numeric_options] refuses every line that is not the number
    of an option, writing the question and an error message each time, the
    message showing the integer read when [int] succeeded and the line
    otherwise; at the end of the input it fails with [EOFError], and the
    first line that is an option number [n] makes it return
    [options[n - 1]], a member of [options], leaving the lines after it
    unread. *)
Theorem input_numeric_options_rounds (py_int : string -> option Z)
  (gen_input : string) (options refused : list string) :
  (forall l, In l refused -> valid_numeric py_int options l = false) ->
  let shown := basic_input_shows gen_input (enumerate 1 options) in
  let wrote :=
    rounds shown (refusal_numeric py_int " is not a valid input.") refused
    ++ shown in
  input_numeric_options py_int gen_input options refused
  = Failed EOFError wrote /\
  forall line rest n,
    py_int line = Some n -> in_range options n = true ->
    input_numeric_options py_int gen_input options (refused ++ line :: rest)
    = Returned (option_at options n) rest wrote /\
    In (option_at options n) options.
Proof.
  intros H shown wrote. rewrite !input_numeric_options_ask. split.
  - apply (ask_all_refused shown (check_numeric py_int options)
             (valid_numeric py_int options));
      [apply check_numeric_refused | assumption].
  - intros line rest n Hn R.
    destruct (in_range_nth_error options n R) as [Hnth Hin].
    split; [|assumption]. rewrite input_numeric_options_ask.
    apply (ask_first_accepted shown (check_numeric py_int options)
             (valid_numeric py_int options));
      [apply check_numeric_refused | assumption |].
    unfold check_numeric. now rewrite Hn, R, Hnth.
Qed.

Lemma input_numeric_options_rounds_witness :
  (forall l, In l ["9"; "two"] ->
             valid_numeric Session.int CRIME_OPTIONS l = false) /\
  input_numeric_options Session.int "How much crime?" CRIME_OPTIONS
    (["9"; "two"] ++ "2" :: ["left over"])
  = Returned "Average" ["left over"]
      (rounds (basic_input_shows "How much crime?" (enumerate 1 CRIME_OPTIONS))
              (refusal_numeric Session.int " is not a valid input.")
              ["9"; "two"]
       ++ basic_input_shows "How much crime?" (enumerate 1 CRIME_OPTIONS)).
Proof.
  assert (H : forall l, In l ["9"; "two"] ->
                        valid_numeric Session.int CRIME_OPTIONS l = false).
  { intros l [<- | [<- | []]]; reflexivity. }
  split; [exact H|].
  apply (proj2 (input_numeric_options_rounds Session.int "How much crime?"
                  CRIME_OPTIONS ["9"; "two"] H) "2" ["left over"] 2%Z);
    reflexivity.
Defined.

(** X2: [input_str_options] accepts exactly the lines that are one of the
    keys of the options, letter for letter, and returns the line itself;
    every other line gets the question and an error message again, and the
    end of the input is an [EOFError]. *)
Theorem input_str_options_rounds (gen_input : string)
  (options : list (string * string)) (refused : list string) :
  (forall l, In l refused -> valid_str options l = false) ->
  let shown :=
    basic_input_shows gen_input (map (fun ko => (PStr (fst ko), snd ko)) options) in
  let wrote :=
    rounds shown (fun l => Print (try_again l " is not a valid.")) refused
    ++ shown in
  input_str_options gen_input options refused = Failed EOFError wrote /\
  forall line rest,
    In line (map fst options) ->
    input_str_options gen_input options (refused ++ line :: rest)
    = Returned line rest wrote.
Proof.
  intros H shown wrote. rewrite !input_str_options_ask. split.
  - apply (ask_all_refused shown (check_str options) (valid_str options));
      [apply check_str_refused | assumption].
  - intros line rest Hin. rewrite input_str_options_ask.
    apply (ask_first_accepted shown (check_str options) (valid_str options));
      [apply check_str_refused | assumption |].
    unfold check_str. apply mem_In in Hin. now rewrite Hin.
Qed.

Lemma input_str_options_rounds_witness :
  (forall l, In l ["$$$$"; "$$ "; ""] ->
             valid_str COST_INPUT_OPTIONS l = false) /\
  input_str_options "What is money to you?" COST_INPUT_OPTIONS
    (["$$$$"; "$$ "; ""] ++ "$$" :: [])
  = Returned "$$" []
      (rounds (basic_input_shows "What is money to you?"
                 (map (fun ko => (PStr (fst ko), snd ko)) COST_INPUT_OPTIONS))
              (fun l => Print (try_again l " is not a valid."))
              ["$$$$"; "$$ "; ""]
       ++ basic_input_shows "What is money to you?"
            (map (fun ko => (PStr (fst ko), snd ko)) COST_INPUT_OPTIONS)).
Proof.
  assert (H : forall l, In l ["$$$$"; "$$ "; ""] ->
                        valid_str COST_INPUT_OPTIONS l = false).
  { intros l [<- | [<- | [<- | []]]]; reflexivity. }
  split; [exact H|].
  apply (proj2 (input_str_options_rounds "What is money to you?"
                  COST_INPUT_OPTIONS ["$$$$"; "$$ "; ""] H) "$$" []).
  right. now left.
Defined.

(** X3: [input_multiple_numeric_options] accepts a line exactly when every
    piece between its commas is read by [int] as the number of an option;
    it then returns the options with these numbers in the order typed,
    repeats included. Any other line, whatever its valid pieces, gets the
    question and an error message showing the whole line, and the end of
    the input is an [EOFError]. *)
Theorem input_multiple_numeric_options_rounds (py_int : string -> option Z)
  (gen_input : string) (options refused : list string) :
  (forall l, In l refused -> valid_multiple py_int options l = false) ->
  let shown := basic_input_shows gen_input (enumerate 1 options) in
  let wrote :=
    rounds shown (fun l => Print (try_again l " is not a valid.")) refused
    ++ shown in
  input_multiple_numeric_options py_int gen_input options refused
  = Failed EOFError wrote /\
  forall line rest picks,
    ints py_int (split "," line) = Some picks ->
    forallb (in_range options) picks = true ->
    input_multiple_numeric_options py_int gen_input options
      (refused ++ line :: rest)
    = Returned (map (option_at options) picks) rest wrote.
Proof.
  intros H shown wrote. rewrite !input_multiple_numeric_options_ask. split.
  - apply (ask_all_refused shown (check_multiple py_int options)
             (valid_multiple py_int options));
      [apply check_multiple_refused | assumption].
  - intros line rest picks Hp R. rewrite input_multiple_numeric_options_ask.
    apply (ask_first_accepted shown (check_multiple py_int options)
             (valid_multiple py_int options));
      [apply check_multiple_refused | assumption |].
    unfold check_multiple. now rewrite Hp, collect_options_in_range, R.
Qed.

Lemma input_multiple_numeric_options_rounds_witness :
  (forall l, In l ["1,8"; "1,"; ""; "1;2"] ->
             valid_multiple Session.int CONTINENT_OPTIONS l = false) /\
  input_multiple_numeric_options Session.int "Which continents?" CONTINENT_OPTIONS
    (["1,8"; "1,"; ""; "1;2"] ++ "5,1,5" :: ["left over"])
  = Returned ["Europe"; "Asia"; "Europe"] ["left over"]
      (rounds (basic_input_shows "Which continents?"
                 (enumerate 1 CONTINENT_OPTIONS))
              (fun l => Print (try_again l " is not a valid."))
              ["1,8"; "1,"; ""; "1;2"]
       ++ basic_input_shows "Which continents?" (enumerate 1 CONTINENT_OPTIONS)).
Proof.
  assert (H : forall l, In l ["1,8"; "1,"; ""; "1;2"] ->
                        valid_multiple Session.int CONTINENT_OPTIONS l = false).
  { intros l [<- | [<- | [<- | [<- | []]]]]; reflexivity. }
  split; [exact H|].
  apply (proj2 (input_multiple_numeric_options_rounds Session.int
                  "Which continents?" CONTINENT_OPTIONS
                  ["1,8"; "1,"; ""; "1;2"] H)
           "5,1,5" ["left over"] [5; 1; 5]%Z);
    reflexivity.
Defined.

(** X4: [input_interest_question] accepts exactly the lines that [int]
    reads as an integer from -5 to 5 and returns that integer; every other
    line gets the question and an error message again, and the end of the
    input is an [EOFError]. *)
Theorem input_interest_question_rounds (py_int : string -> option Z)
  (label : string) (refused : list string) :
  (forall l, In l refused -> valid_interest py_int l = false) ->
  let shown :=
    [Print ("How much do you like " ++ label ++ "? (-5 to 5)"); Prompt "> "] in
  let wrote :=
    rounds shown (refusal_numeric py_int " is not valid.") refused ++ shown in
  input_interest_question py_int label refused = Failed EOFError wrote /\
  forall line rest n,
    py_int line = Some n -> (-5 <= n <= 5)%Z ->
    input_interest_question py_int label (refused ++ line :: rest)
    = Returned n rest wrote.
Proof.
  intros H shown wrote. rewrite !input_interest_question_ask. split.
  - apply (ask_all_refused shown (check_interest py_int) (valid_interest py_int));
      [apply check_interest_refused | assumption].
  - intros line rest n Hn R. rewrite input_interest_question_ask.
    apply (ask_first_accepted shown (check_interest py_int)
             (valid_interest py_int));
      [apply check_interest_refused | assumption |].
    unfold check_interest. rewrite Hn.
    replace ((-5 <=? n)%Z && (n <=? 5)%Z)%bool with true; [reflexivity|].
    symmetry. apply andb_true_intro. split; apply Z.leb_le; lia.
Qed.

Lemma input_interest_question_rounds_witness :
  (forall l, In l ["6"; "-6"; "a lot"] ->
             valid_interest Session.int l = false) /\
  input_interest_question Session.int "the beach" (["6"; "-6"; "a lot"] ++ "-5" :: [])
  = Returned (-5)%Z []
      (rounds [Print "How much do you like the beach? (-5 to 5)"; Prompt "> "]
              (refusal_numeric Session.int " is not valid.") ["6"; "-6"; "a lot"]
       ++ [Print "How much do you like the beach? (-5 to 5)"; Prompt "> "]).
Proof.
  assert (H : forall l, In l ["6"; "-6"; "a lot"] ->
                        valid_interest Session.int l = false).
  { intros l [<- | [<- | [<- | []]]]; reflexivity. }
  split; [exact H|].
  apply (proj2 (input_interest_question_rounds Session.int "the beach"
                  ["6"; "-6"; "a lot"] H) "-5" [] (-5)%Z);
    [reflexivity | lia].
Defined.

(** X5: the body of the [try] of [input_multiple_numeric_options] is all
    or nothing: if every number is the number of an option the result
    lists [options[p - 1]] for each number [p] in the order given, repeats
    included; if one number is not, nothing is collected, wherever that
    number stands. *)
Theorem collect_options_all_or_nothing (options : list string) (picks : list Z) :
  collect_options options picks
  = if forallb (in_range options) picks
    then Some (map (option_at options) picks)
    else None.
Proof. apply collect_options_in_range. Qed.

(** ** What the questions return *)

Lemma ask_outcome {A : Type} (shown : list event) (check : string -> A + event)
  (stdin : list string) :
  satisfies (ask shown check stdin)
    (fun a rest _ =>
       (List.length rest < List.length stdin)%nat /\
       exists line, check line = inl a)
    (fun f _ => f = EOFError).
Proof.
  induction stdin as [|line stdin IH]; simpl; [reflexivity|].
  destruct (check line) as [a|msg] eqn:C; simpl.
  - split; [lia | now exists line].
  - apply satisfies_after.
    eapply satisfies_weaken; [| |exact IH]; simpl; [|auto].
    intros a rest _ [L E]. split; [lia | exact E].
Qed.

Section Answers.

Variable py_int : string -> option Z.

Lemma check_numeric_member (options : list string) (line o : string) :
  check_numeric py_int options line = inl o -> In o options.
Proof.
  unfold check_numeric.
  destruct (py_int line) as [n|]; [|discriminate].
  destruct (in_range options n); [|discriminate].
  destruct (nth_error options (Z.to_nat (n - 1))) as [x|] eqn:E; [|discriminate].
  intro H. injection H as <-. now apply nth_error_In in E.
Qed.

Lemma check_str_member (options : list (string * string)) (line o : string) :
  check_str options line = inl o -> In o (map fst options).
Proof.
  unfold check_str.
  destruct (mem line (map fst options)) eqn:E; [|discriminate].
  intro H. injection H as <-. now apply mem_In.
Qed.

Lemma check_multiple_selection (options : list string) (line : string)
  (l : list string) :
  check_multiple py_int options line = inl l -> selection_of options l = true.
Proof.
  unfold check_multiple.
  destruct (ints py_int (split "," line)) as [picks|] eqn:E; [|discriminate].
  rewrite collect_options_in_range.
  destruct (forallb (in_range options) picks) eqn:R; [|discriminate].
  intro H. injection H as <-.
  apply ints_length in E. unfold selection_of. apply andb_true_intro. split.
  - destruct picks; [|reflexivity].
    simpl in E. symmetry in E. apply length_zero_iff_nil in E.
    now destruct (split_not_nil "," line).
  - rewrite forallb_forall in *. intros x Hx.
    apply in_map_iff in Hx as (p & <- & Hp).
    apply mem_In. now apply in_range_nth_error, R.
Qed.

Lemma check_interest_range (line : string) (n : Z) :
  check_interest py_int line = inl n -> (-5 <= n <= 5)%Z.
Proof.
  unfold check_interest.
  destruct (py_int line) as [z|]; [|discriminate].
  destruct ((-5 <=? z)%Z && (z <=? 5)%Z)%bool eqn:R; [|discriminate].
  intro H. injection H as <-.
  apply andb_prop in R as [R1 R2]. apply Z.leb_le in R1, R2. lia.
Qed.

Lemma input_multiple_numeric_options_outcome (gen_input : string)
  (options stdin : list string) :
  satisfies (input_multiple_numeric_options py_int gen_input options stdin)
    (fun l rest _ =>
       (List.length rest < List.length stdin)%nat /\
       selection_of options l = true)
    (fun f _ => f = EOFError).
Proof.
  rewrite input_multiple_numeric_options_ask.
  eapply satisfies_weaken; [| |apply ask_outcome]; simpl; [|auto].
  intros l rest _ [L (line & C)]. split; [assumption|].
  now apply check_multiple_selection with line.
Qed.

Lemma ask_question_outcome (question : string) (type_ : question_type)
  (stdin : list string) :
  satisfies (ask_question py_int question type_ stdin)
    (fun a rest _ =>
       (List.length rest < List.length stdin)%nat /\ answer_ok type_ a)
    (fun f _ => f = EOFError).
Proof.
  destruct type_ as [options | options | options]; simpl;
    apply satisfies_and_then.
  - rewrite input_numeric_options_ask.
    eapply satisfies_weaken; [| |apply ask_outcome]; simpl; [|auto].
    intros o rest _ [L (line & C)]. split; [assumption|].
    now apply check_numeric_member with line.
  - eapply satisfies_weaken;
      [| |apply input_multiple_numeric_options_outcome]; simpl; auto.
  - rewrite input_str_options_ask.
    eapply satisfies_weaken; [| |apply ask_outcome]; simpl; [|auto].
    intros o rest _ [L (line & C)]. split; [assumption|].
    now apply check_str_member with line.
Qed.

Lemma ask_questions_outcome (questions : list (string * string * question_type)) :
  forall (responses : list (string * answer)) (stdin : list string),
  satisfies (ask_questions py_int questions responses stdin)
    (fun responses' rest _ =>
       (List.length rest + List.length questions <= List.length stdin)%nat /\
       exists answers,
         Forall2 answer_ok (map snd questions) answers /\
         responses'
         = dict_set_all (combine (map (fun q => fst (fst q)) questions) answers)
                        responses)
    (fun f _ => f = EOFError).
Proof.
  induction questions as [|[[key question] type_] questions IH];
    intros responses stdin; simpl.
  - split; [lia|]. exists []. split; [constructor | reflexivity].
  - apply satisfies_and_then.
    eapply satisfies_weaken; [| |apply ask_question_outcome]; simpl; [|auto].
    intros a mid _ [L Ha].
    apply satisfies_and_then. simpl.
    eapply satisfies_weaken; [| |apply IH]; simpl; [|auto].
    intros responses' rest _ [L' (answers & Hall & ->)].
    split; [lia|]. exists (a :: answers). split; [now constructor | reflexivity].
Qed.

Lemma ask_interests_outcome (inputs : list (string * string)) :
  forall (interests : list (string * Z)) (stdin : list string),
  satisfies (ask_interests py_int inputs interests stdin)
    (fun interests' rest _ =>
       (List.length rest + List.length inputs <= List.length stdin)%nat /\
       exists ns,
         Forall2 (fun _ n => (-5 <= n <= 5)%Z) inputs ns /\
         interests' = dict_set_all (combine (map fst inputs) ns) interests)
    (fun f _ => f = EOFError).
Proof.
  induction inputs as [|[key label] inputs IH]; intros interests stdin; simpl.
  - split; [lia|]. exists []. split; [constructor | reflexivity].
  - apply satisfies_and_then. rewrite input_interest_question_ask.
    eapply satisfies_weaken; [| |apply ask_outcome]; simpl; [|auto].
    intros n mid _ [L (line & C)]. apply check_interest_range in C.
    apply satisfies_and_then. simpl.
    eapply satisfies_weaken; [| |apply IH]; simpl; [|auto].
    intros interests' rest _ [L' (ns & Hall & ->)].
    split; [lia|]. exists (n :: ns). split; [now constructor | reflexivity].
Qed.

End Answers.

(** ** The answers of a whole session *)

Lemma range_leb (n : Z) :
  (-5 <= n <= 5)%Z -> ((-5 <=? n)%Z && (n <=? 5)%Z)%bool = true.
Proof. intro H. apply andb_true_intro. split; apply Z.leb_le; lia. Qed.

Lemma session_answers_wf (answers : list answer) (ns : list Z) :
  Forall2 answer_ok (map snd QUESTIONS) answers ->
  Forall2 (fun _ n => (-5 <= n <= 5)%Z) INTEREST_INPUT ns ->
  exists r,
    responses_read
      (dict_set_all (combine (map (fun q => fst (fst q)) QUESTIONS) answers) [])
      (dict_set_all (combine (map fst INTEREST_INPUT) ns) [])
    = Some r /\
    wf_responses r = true.
Proof.
  intros HA HN. unfold QUESTIONS in HA. unfold INTEREST_INPUT in HN.
  cbn [map snd] in HA.
  repeat match goal with
         | H : Forall2 _ (_ :: _) _ |- _ => inversion H; clear H; subst
         | H : Forall2 _ [] _ |- _ => inversion H; clear H; subst
         end.
  repeat match goal with
         | H : answer_ok _ ?a |- _ =>
             destruct a; cbv [answer_ok] in H; try contradiction
         end.
  change (map fst COST_INPUT_OPTIONS) with COST_OPTIONS in *.
  eexists. split; [reflexivity|].
  unfold wf_responses.
  cbn [continent cost crime kids season climate interests].
  repeat match goal with
         | H : selection_of _ _ = true |- _ => rewrite H; clear H
         | H : In _ _ |- _ => apply mem_In in H; rewrite H; clear H
         end.
  cbn [andb]. unfold dict_set_all. simpl.
  repeat match goal with
         | H : (-5 <= _ <= 5)%Z |- _ => apply range_leb in H; rewrite H; clear H
         end.
  reflexivity.
Qed.

Lemma matching_outcome (catalog : list Destination)
  (responses : list (string * answer)) (interests : list (string * Z))
  (r : Responses) (stdin : list string) :
  responses_read responses interests = Some r ->
  satisfies (matching catalog responses interests stdin)
    (fun m rest out => rest = stdin /\ out = [] /\ main_match catalog r = Ok m)
    (fun f _ => exists e, main_match catalog r = Raise e /\ f = MatchError e).
Proof.
  intro H. unfold matching. rewrite H.
  destruct (main_match catalog r) as [m|e]; simpl; eauto.
Qed.

(** [main] either returns, having read fourteen lines or more and written
    last the report on the match for well-formed answers, or fails: with
    [EOFError], or with an exception of the matching loop once fourteen
    lines or more have been read. *)
Lemma main_outcome (py_int : string -> option Z) (catalog : list Destination)
  (stdin : list string) :
  satisfies (main py_int catalog stdin)
    (fun _ rest out =>
       (List.length rest + 14 <= List.length stdin)%nat /\
       exists r m shown,
         wf_responses r = true /\ main_match catalog r = Ok m /\
         out = shown ++ map Print (report m))
    (fun f _ =>
       f = EOFError \/
       ((14 <= List.length stdin)%nat /\
        exists r e, wf_responses r = true /\ main_match catalog r = Raise e /\
                    f = MatchError e)).
Proof.
  unfold main.
  apply satisfies_print.
  apply satisfies_input. destruct stdin as [|name stdin]; [now left|].
  apply satisfies_print.
  apply satisfies_and_then.
  eapply satisfies_weaken; [| |apply ask_questions_outcome];
    cbv beta; [|auto].
  intros responses mid o1 [L (answers & HA & ->)].
  apply satisfies_print.
  apply satisfies_and_then.
  eapply satisfies_weaken; [| |apply ask_interests_outcome];
    cbv beta; [|auto].
  intros interests rest o2 [L' (ns & HN & ->)].
  destruct (session_answers_wf answers ns HA HN) as (r & Hread & Hwf).
  apply satisfies_and_then.
  eapply satisfies_weaken; [| |apply (matching_outcome _ _ _ r _ Hread)];
    cbv beta.
  - intros m rest' out (-> & -> & Hm). cbn [satisfies].
    change (List.length QUESTIONS) with 6%nat in L.
    change (List.length INTEREST_INPUT) with 7%nat in L'.
    split; [simpl; lia|].
    exists r, m. eexists. repeat split; try assumption.
    rewrite !app_comm_cons, !app_assoc. reflexivity.
  - intros f _ (e & He & ->). right.
    change (List.length QUESTIONS) with 6%nat in L.
    change (List.length INTEREST_INPUT) with 7%nat in L'.
    split; [simpl; lia|].
    exists r, e. now repeat split.
Qed.

(** X6: whatever is typed, a selection that
    [input_multiple_numeric_options] returns is never empty and holds only
    listed options, and at least one line has been read for it. *)
Theorem multiple_choice_is_a_selection (py_int : string -> option Z)
  (gen_input : string) (options stdin : list string)
  (l : list string) (rest : list string) (out : list event) :
  input_multiple_numeric_options py_int gen_input options stdin
  = Returned l rest out ->
  selection_of options l = true /\
  (List.length rest < List.length stdin)%nat.
Proof.
  intro H.
  pose proof (input_multiple_numeric_options_outcome py_int gen_input options
                stdin) as S.
  rewrite H in S. simpl in S. tauto.
Qed.

Lemma multiple_choice_is_a_selection_witness :
  input_multiple_numeric_options Session.int "Which seasons?" SEASON_OPTIONS
    ["5"; "4,4"; "1"]
  = Returned ["Winter"; "Winter"] ["1"]
      (rounds (basic_input_shows "Which seasons?" (enumerate 1 SEASON_OPTIONS))
              (fun l => Print (try_again l " is not a valid.")) ["5"]
       ++ basic_input_shows "Which seasons?" (enumerate 1 SEASON_OPTIONS)) /\
  selection_of SEASON_OPTIONS ["Winter"; "Winter"] = true /\
  (List.length ["1"] < List.length ["5"; "4,4"; "1"])%nat.
Proof.
  split; [reflexivity|].
  eapply (multiple_choice_is_a_selection Session.int "Which seasons?"
            SEASON_OPTIONS ["5"; "4,4"; "1"] ["Winter"; "Winter"] ["1"]).
  reflexivity.
Defined.

(** X7: the answers with which the question loop and the interest loop of
    [main] return are always well formed: the six entries the matching loop
    reads are there, continents and seasons are non-empty selections of the
    listed ones, cost, crime, children and climate are listed options, and
    there is an interest from -5 to 5 for each of the seven keys, in the
    order of [INTEREST_INPUT]. *)
Theorem session_answers_are_well_formed (py_int : string -> option Z)
  (stdin stdin' mid rest : list string) (out out' : list event)
  (responses : list (string * answer)) (interests : list (string * Z)) :
  ask_questions py_int QUESTIONS [] stdin = Returned responses mid out ->
  ask_interests py_int INTEREST_INPUT [] stdin' = Returned interests rest out' ->
  exists r, responses_read responses interests = Some r /\
            wf_responses r = true.
Proof.
  intros HQ HI.
  pose proof (ask_questions_outcome py_int QUESTIONS [] stdin) as SQ.
  pose proof (ask_interests_outcome py_int INTEREST_INPUT [] stdin') as SI.
  rewrite HQ in SQ. rewrite HI in SI.
  destruct SQ as [_ (answers & HA & ->)]. destruct SI as [_ (ns & HN & ->)].
  now apply session_answers_wf.
Qed.

Lemma session_answers_are_well_formed_witness :
  (exists out,
      ask_questions Session.int QUESTIONS [] ["1,1"; "$$"; "2"; "1"; "1,2"; "3"]
      = Returned [("continent", Many ["Asia"; "Asia"]); ("cost", One "$$");
                  ("crime", One "Average"); ("kids", One "Yes");
                  ("season", Many ["Spring"; "Summer"]);
                  ("climate", One "Moderate")] [] out) /\
  (exists out,
      ask_interests Session.int INTEREST_INPUT []
        ["0"; "1"; "2"; "5"; "3"; "-2"; "0"]
      = Returned (Sample.likes 0 1 2 5 3 (-2) 0) [] out) /\
  exists r,
    responses_read [("continent", Many ["Asia"; "Asia"]); ("cost", One "$$");
                    ("crime", One "Average"); ("kids", One "Yes");
                    ("season", Many ["Spring"; "Summer"]);
                    ("climate", One "Moderate")]
                   (Sample.likes 0 1 2 5 3 (-2) 0) = Some r /\
    wf_responses r = true.
Proof.
  split; [eexists; reflexivity|]. split; [eexists; reflexivity|].
  eapply (session_answers_are_well_formed Session.int
            ["1,1"; "$$"; "2"; "1"; "1,2"; "3"]
            ["0"; "1"; "2"; "5"; "3"; "-2"; "0"] [] []);
    reflexivity.
Defined.

Lemma returned_answers_wf (py_int : string -> option Z)
  (stdin stdin' mid rest : list string) (out out' : list event)
  (responses : list (string * answer)) (interests : list (string * Z)) :
  ask_questions py_int QUESTIONS [] stdin = Returned responses mid out ->
  ask_interests py_int INTEREST_INPUT [] stdin' = Returned interests rest out' ->
  exists r, responses_read responses interests = Some r /\
            wf_responses r = true.
Proof.
  intros HQ HI.
  pose proof (ask_questions_outcome py_int QUESTIONS [] stdin) as SQ.
  pose proof (ask_interests_outcome py_int INTEREST_INPUT [] stdin') as SI.
  rewrite HQ in SQ. rewrite HI in SI.
  destruct SQ as [_ (answers & HA & ->)]. destruct SI as [_ (ns & HN & ->)].
  now apply session_answers_wf.
Qed.

(** [main] step by step, once the name has been read. *)
Lemma main_runs (py_int : string -> option Z) (catalog : list Destination)
  (name : string) (stdin1 : list string) :
  main py_int catalog (name :: stdin1) =
  after [Print ("Welcome to Travel Inspiration!" ++ NL);
         Prompt "What is your name? ";
         Print (NL ++ "Hi, " ++ name ++ "!" ++ NL)]
    (match ask_questions py_int QUESTIONS [] stdin1 with
     | Failed f o1 => Failed f o1
     | Returned responses mid o1 =>
         after (o1 ++ [Print INTERESTS_INTRO])
           (match ask_interests py_int INTEREST_INPUT [] mid with
            | Failed f o2 => Failed f o2
            | Returned interests rest o2 =>
                after o2
                  (match responses_read responses interests with
                   | None => Failed (MatchError LookupKeyError) []
                   | Some r =>
                       match main_match catalog r with
                       | Ok m => Returned tt rest (map Print (report m))
                       | Raise e => Failed (MatchError e) []
                       end
                   end)
            end)
     end).
Proof.
  unfold main, and_then, print, input, matching. cbn [after app].
  destruct (ask_questions py_int QUESTIONS [] stdin1) as [responses mid o1|f o1];
    cbn [after app]; [|reflexivity].
  destruct (ask_interests py_int INTEREST_INPUT [] mid)
    as [interests rest o2|f o2]; cbn [after app];
    [|now rewrite <- app_assoc].
  destruct (responses_read responses interests) as [r|]; cbn [after app];
    [|now rewrite <- app_assoc].
  destruct (main_match catalog r) as [m|e]; cbn [after app];
    now rewrite <- app_assoc.
Qed.

(** X8: on a catalog of complete records [main] never ends with an
    exception of the matching loop: whatever is typed it either fails with
    [EOFError] because the input ended, or returns. When it returns, the
    first line typed was the name, the question loop has returned its
    answers from the lines after the name, the interest loop its interests
    from the lines after those, leaving the lines [main] leaves; the
    answers read from the two are well formed, the matching loop selects a
    result for them, and what was written is the welcome, what the two
    loops wrote, and last the line of thanks and the name of the selected
    destination, or [None]. *)
Theorem main_on_complete_catalog (py_int : string -> option Z)
  (catalog : list Destination) (stdin : list string) :
  forallb complete catalog = true ->
  (forall f out, main py_int catalog stdin = Failed f out -> f = EOFError) /\
  (forall rest out,
      main py_int catalog stdin = Returned tt rest out ->
      exists name stdin1 responses mid o1 interests o2 r m,
        stdin = name :: stdin1 /\
        ask_questions py_int QUESTIONS [] stdin1 = Returned responses mid o1 /\
        ask_interests py_int INTEREST_INPUT [] mid = Returned interests rest o2 /\
        responses_read responses interests = Some r /\
        wf_responses r = true /\
        main_match catalog r = Ok m /\
        out = [Print ("Welcome to Travel Inspiration!" ++ NL);
               Prompt "What is your name? ";
               Print (NL ++ "Hi, " ++ name ++ "!" ++ NL)]
              ++ o1 ++ [Print INTERESTS_INTRO] ++ o2
              ++ [Print THANKS;
                  Print (match m with
                         | None => "None"
                         | Some d => get_name d
                         end)]).
Proof.
  intro Hcat. split.
  - pose proof (main_outcome py_int catalog stdin) as S.
    intros f out E. rewrite E in S. simpl in S.
    destruct S as [-> | (_ & r & e & Hwf & Hraise & _)]; [reflexivity|].
    destruct (main_match_first_best r (wf_responses_Answers r Hwf) catalog
                (catalog_Complete catalog Hcat)) as (m & Hm & _).
    congruence.
  - intros rest out E.
    destruct stdin as [|name stdin1]; [discriminate E|].
    rewrite main_runs in E.
    destruct (ask_questions py_int QUESTIONS [] stdin1)
      as [responses mid o1|] eqn:HQ; [|discriminate E].
    destruct (ask_interests py_int INTEREST_INPUT [] mid)
      as [interests rest' o2|] eqn:HI; [|discriminate E].
    destruct (returned_answers_wf py_int _ _ _ _ _ _ _ _ HQ HI)
      as (r & Hread & Hwf).
    rewrite Hread in E.
    destruct (main_match catalog r) as [m|] eqn:Hm; [|discriminate E].
    cbn [after] in E. injection E as <- <-.
    exists name, stdin1, responses, mid, o1, interests, o2, r, m.
    repeat split; try assumption.
    cbn [app]. now rewrite <- !app_assoc.
Qed.

Lemma main_on_complete_catalog_witness :
  forallb complete Sample.catalog = true /\
  exists rest out,
    main Session.int Sample.catalog Session.typed = Returned tt rest out /\
    exists name stdin1 responses mid o1 interests o2 r m,
      Session.typed = name :: stdin1 /\
      ask_questions Session.int QUESTIONS [] stdin1 = Returned responses mid o1 /\
      ask_interests Session.int INTEREST_INPUT [] mid
      = Returned interests rest o2 /\
      responses_read responses interests = Some r /\
      wf_responses r = true /\
      main_match Sample.catalog r = Ok m /\
      out = [Print ("Welcome to Travel Inspiration!" ++ NL);
             Prompt "What is your name? ";
             Print (NL ++ "Hi, " ++ name ++ "!" ++ NL)]
            ++ o1 ++ [Print INTERESTS_INTRO] ++ o2
            ++ [Print THANKS;
                Print (match m with
                       | None => "None"
                       | Some d => get_name d
                       end)].
Proof.
  split; [reflexivity|].
  destruct (main Session.int Sample.catalog Session.typed)
    as [[] rest out|f out] eqn:E; [|discriminate E].
  exists rest, out. split; [reflexivity|].
  apply (proj2 (main_on_complete_catalog Session.int Sample.catalog
                  Session.typed eq_refl) rest out E).
Defined.

(** X9: [main] reads the name, six answers and seven interests, a line or
    more for each: with fewer than fourteen lines of input it fails with
    [EOFError] whatever the lines are, and when it returns at least fourteen
    lines have been read. *)
Theorem main_reads_fourteen_lines (py_int : string -> option Z)
  (catalog : list Destination) (stdin : list string) :
  ((List.length stdin < 14)%nat ->
   exists out, main py_int catalog stdin = Failed EOFError out) /\
  (forall rest out,
      main py_int catalog stdin = Returned tt rest out ->
      (List.length rest + 14 <= List.length stdin)%nat).
Proof.
  pose proof (main_outcome py_int catalog stdin) as S.
  destruct (main py_int catalog stdin) as [[] rest out|f out]; simpl in S.
  - split; [lia|]. intros rest' out' E. injection E as <- <-. tauto.
  - split; [|discriminate]. intro L.
    destruct S as [-> | [L' _]]; [now exists out | lia].
Qed.

Lemma main_reads_fourteen_lines_witness :
  (List.length ["Ada"; "1"; "$"; "1"; "1"; "1"; "1"; "0"; "0"; "0"; "0"; "0";
                "0"] < 14)%nat /\
  (exists out,
      main Session.int Sample.catalog
        ["Ada"; "1"; "$"; "1"; "1"; "1"; "1"; "0"; "0"; "0"; "0"; "0"; "0"]
      = Failed EOFError out).
Proof.
  split; [simpl; lia|].
  apply (proj1 (main_reads_fourteen_lines Session.int Sample.catalog
                  ["Ada"; "1"; "$"; "1"; "1"; "1"; "1"; "0"; "0"; "0"; "0";
                   "0"; "0"])).
  simpl; lia.
Defined.

(** * More on the matching loop *)

Lemma step_rejected (r : Responses) (m : option Destination) (d : Destination) :
  is_eligible d r = Ok false -> step r m d = Ok m.
Proof. intro H. unfold step. now rewrite H. Qed.

Lemma step_first (r : Responses) (d : Destination) :
  passes d r -> step r None d = Ok (Some d).
Proof. intro H. unfold step. now rewrite H. Qed.

Lemma main_match_until_second (r : Responses)
  (l1 : list Destination) (a : Destination) (l2 : list Destination)
  (b : Destination) (l3 : list Destination) :
  (forall x, In x (l1 ++ l2) -> is_eligible x r = Ok false) ->
  passes a r -> passes b r ->
  main_match (l1 ++ a :: l2 ++ b :: l3) r
  = (m <- challenge a b r ;; main_loop r (Some m) l3).
Proof.
  intros Hskip Pa Pb. unfold main_match.
  rewrite main_loop_app, main_loop_skips
    by (intros x Hx; apply Hskip, in_or_app; now left).
  cbn [bind main_loop]. rewrite (step_first r a Pa). cbn [bind].
  rewrite main_loop_app, main_loop_skips
    by (intros x Hx; apply Hskip, in_or_app; now right).
  cbn [bind main_loop]. unfold step at 1. rewrite Pb. cbn [bind negb].
  now destruct (challenge a b r).
Qed.

(** X10: when exactly one entry of the catalog passes the filters it is
    the result, without any score being computed: this holds whatever the
    seasons chosen and whether or not the record has its factors and
    scores. *)
Theorem only_candidate_is_returned (r : Responses)
  (l1 : list Destination) (d : Destination) (l2 : list Destination) :
  (forall x, In x (l1 ++ l2) -> is_eligible x r = Ok false) ->
  passes d r ->
  main_match (l1 ++ d :: l2) r = Ok (Some d).
Proof.
  intros Hskip Pd. unfold main_match.
  rewrite main_loop_app, main_loop_skips
    by (intros x Hx; apply Hskip, in_or_app; now left).
  cbn [bind main_loop]. rewrite (step_first r d Pd). cbn [bind].
  apply main_loop_skips. intros x Hx. apply Hskip, in_or_app. now right.
Qed.

Lemma only_candidate_is_returned_witness :
  (forall x, In x ([Sample.kyoto] ++ [Sample.cairo]) ->
             is_eligible x Session.europe_trip = Ok false) /\
  passes Session.bergen Session.europe_trip /\
  composite_score Session.bergen Session.europe_trip = Raise LookupKeyError /\
  main_match ([Sample.kyoto] ++ Session.bergen :: [Sample.cairo])
             Session.europe_trip = Ok (Some Session.bergen).
Proof.
  assert (H : forall x, In x ([Sample.kyoto] ++ [Sample.cairo]) ->
                        is_eligible x Session.europe_trip = Ok false).
  { intros x [<- | [<- | []]]; reflexivity. }
  split; [exact H|]. split; [reflexivity|]. split; [reflexivity|].
  apply (only_candidate_is_returned Session.europe_trip [Sample.kyoto]
           Session.bergen [Sample.cairo] H).
  reflexivity.
Defined.

(** X11: an entry that the filters reject has no influence on the run:
    the loop on a catalog with it gives what it gives on the catalog without
    it, result or exception. *)
Theorem rejected_entry_is_ignored (r : Responses)
  (l1 : list Destination) (d : Destination) (l2 : list Destination) :
  is_eligible d r = Ok false ->
  main_match (l1 ++ d :: l2) r = main_match (l1 ++ l2) r.
Proof.
  intro H. unfold main_match. rewrite !main_loop_app.
  destruct (main_loop r None l1) as [m|e]; cbn [bind main_loop]; [|reflexivity].
  now rewrite (step_rejected r m d H).
Qed.

Lemma rejected_entry_is_ignored_witness :
  is_eligible Sample.denver Sample.asia_trip = Ok false /\
  main_match ([Sample.kyoto; Sample.hanoi] ++ Sample.denver :: [Sample.cairo])
             Sample.asia_trip
  = main_match ([Sample.kyoto; Sample.hanoi] ++ [Sample.cairo]) Sample.asia_trip.
Proof.
  split; [reflexivity|].
  apply (rejected_entry_is_ignored Sample.asia_trip [Sample.kyoto; Sample.hanoi]
           Sample.denver [Sample.cairo]).
  reflexivity.
Defined.

(** X12: a record whose crime level is not Low, Average or High in any
    letter case is skipped without complaint when its continent was not
    chosen, and makes the filters, and with them the whole loop, raise the
    [ValueError] of [list.index] when its continent was chosen. *)
Theorem unknown_crime_label (d : Destination) (r : Responses) :
  crime_ordinal (get_crime d) = None ->
  is_eligible d r
  = (if mem (title (get_continent d)) (continent r)
     then Raise IndexValueError else Ok false) /\
  forall l1 l2 m,
    main_loop r None l1 = Ok m ->
    mem (title (get_continent d)) (continent r) = true ->
    main_match (l1 ++ d :: l2) r = Raise IndexValueError.
Proof.
  intro H.
  assert (E : is_eligible d r
              = if mem (title (get_continent d)) (continent r)
                then Raise IndexValueError else Ok false).
  { unfold is_eligible.
    destruct (mem (title (get_continent d)) (continent r)); [|reflexivity].
    cbn [negb]. rewrite (index_title CRIME_OPTIONS (get_crime d) titled_CRIME).
    fold (crime_ordinal (get_crime d)). now rewrite H. }
  split; [exact E|].
  intros l1 l2 m Hl1 Hc. unfold main_match.
  rewrite main_loop_app, Hl1. cbn [bind main_loop].
  unfold step. now rewrite E, Hc.
Qed.

Lemma unknown_crime_label_witness :
  crime_ordinal (get_crime Session.lagos) = None /\
  is_eligible Session.lagos Sample.asia_trip = Ok false /\
  is_eligible Session.lagos Session.europe_trip = Raise IndexValueError /\
  main_match ([Session.oslo] ++ Session.lagos :: [Sample.cairo])
             Session.europe_trip = Raise IndexValueError.
Proof.
  split; [reflexivity|].
  split; [exact (proj1 (unknown_crime_label Session.lagos Sample.asia_trip
                          eq_refl))|].
  split; [exact (proj1 (unknown_crime_label Session.lagos Session.europe_trip
                          eq_refl))|].
  apply (proj2 (unknown_crime_label Session.lagos Session.europe_trip eq_refl)
           [Session.oslo] [Sample.cairo] (Some Session.oslo));
    reflexivity.
Defined.

(** X13: the filters read the continent and the crime level of a record
    up to letter case: two records whose continents and crime levels differ
    only in case, and that agree on cost, kid friendliness and climate, are
    treated alike by the filters for all answers. *)
Theorem record_labels_up_to_case (d d' : Destination) (r : Responses) :
  same_label (get_continent d) (get_continent d') ->
  same_label (get_crime d) (get_crime d') ->
  get_cost d = get_cost d' ->
  is_kid_friendly d = is_kid_friendly d' ->
  get_climate d = get_climate d' ->
  is_eligible d r = is_eligible d' r.
Proof.
  unfold same_label. intros Hc Hcr Hcost Hk Hcl. unfold is_eligible.
  rewrite <- (title_lower (get_continent d)), Hc, title_lower.
  rewrite <- (title_lower (get_crime d)), Hcr, title_lower.
  now rewrite Hcost, Hk, Hcl.
Qed.

Lemma record_labels_up_to_case_witness :
  same_label (get_continent Session.bergen) (get_continent Session.oslo) /\
  same_label (get_crime Session.bergen) (get_crime Session.oslo) /\
  is_eligible Session.bergen Session.europe_trip
  = is_eligible Session.oslo Session.europe_trip.
Proof.
  split; [reflexivity|]. split; [reflexivity|].
  apply (record_labels_up_to_case Session.bergen Session.oslo
           Session.europe_trip); reflexivity.
Defined.

Lemma sum_from_indifferent (d : Destination) (kvs : list (string * Z)) :
  (forall kv, In kv kvs -> snd kv = 0%Z) ->
  forall acc i,
    sum_from (fun kv => v <- of_lookup (get_interest_score d (fst kv)) ;;
                        Ok (inject_Z (snd kv) * v)) acc kvs = Ok i ->
    i == acc.
Proof.
  induction kvs as [|kv kvs IH]; intros Hz acc i H; simpl in H.
  - injection H as <-. reflexivity.
  - destruct (get_interest_score d (fst kv)) as [v|]; [|discriminate].
    cbn [of_lookup bind] in H.
    rewrite (IH (fun x Hx => Hz x (or_intror Hx)) _ _ H).
    rewrite (Hz kv (or_introl eq_refl)). change (inject_Z 0) with 0. ring.
Qed.

Lemma composite_score_indifferent (d : Destination) (r : Responses) (q : Q) :
  (forall kv, In kv (interests r) -> snd kv = 0%Z) ->
  composite_score d r = Ok q -> q == 0.
Proof.
  intros Hz H. unfold composite_score in H.
  destruct (season_score d r) as [s|]; [|discriminate].
  destruct (interest_score d r) as [i|] eqn:Hi; [|discriminate].
  cbn [bind] in H. injection H as <-.
  apply (sum_from_indifferent d (interests r) Hz) in Hi.
  rewrite Hi. ring.
Qed.

(** X14: for somebody who answers 0 to every interest, on complete
    records and well-formed answers, the composite score of every catalog
    entry is computed and is 0, and the loop returns the first entry of the
    catalog that passes the filters. *)
Theorem indifferent_user_gets_first_candidate (catalog : list Destination)
  (r : Responses) (l1 : list Destination) (d : Destination)
  (l2 : list Destination) :
  wf_responses r = true ->
  forallb complete catalog = true ->
  (forall kv, In kv (interests r) -> snd kv = 0%Z) ->
  catalog = l1 ++ d :: l2 ->
  (forall x, In x l1 -> is_eligible x r = Ok false) ->
  passes d r ->
  (forall x, In x catalog -> exists q, composite_score x r = Ok q /\ q == 0) /\
  main_match catalog r = Ok (Some d).
Proof.
  intros Hwf Hcat Hz Ecat Hl1 Pd.
  pose proof (wf_responses_Answers r Hwf) as Hr.
  pose proof (catalog_Complete catalog Hcat) as HC.
  split.
  { intros x Hx. destruct (composite_score_defined r Hr x (HC x Hx)) as [q Hq].
    exists q. split; [assumption|].
    now apply (composite_score_indifferent x r q Hz). }
  destruct (main_match_first_best r Hr catalog HC) as (m & Hm & Hinv).
  rewrite Hm. do 2 f_equal.
  assert (Hd : In d catalog).
  { rewrite Ecat. apply in_or_app. right. now left. }
  destruct m as [w|]; simpl in Hinv.
  2:{ red in Pd. rewrite (Hinv d Hd) in Pd. discriminate. }
  destruct Hinv as (p & s & E & Pw & Hp & Hs). rewrite E in Ecat.
  destruct (Nat.lt_trichotomy (List.length p) (List.length l1)) as [L | [L | L]].
  - assert (Hw : In w l1)
      by (apply (earlier_in_prefix l1 d l2 p w s); [now symmetry | assumption]).
    red in Pw. rewrite (Hl1 w Hw) in Pw. discriminate.
  - f_equal. apply (same_position p w s l1 d l2 Ecat L).
  - assert (Hdp : In d p)
      by (apply (earlier_in_prefix p w s l1 d l2 Ecat L)).
    destruct (Hp d Hdp Pd) as (qd & qw & Hqd & Hqw & Hlt).
    apply (composite_score_indifferent d r qd Hz) in Hqd.
    apply (composite_score_indifferent w r qw Hz) in Hqw.
    rewrite Hqd, Hqw in Hlt. now apply Qlt_irrefl in Hlt.
Qed.

Lemma indifferent_user_gets_first_candidate_witness :
  wf_responses Session.indifferent = true /\
  forallb complete Sample.catalog = true /\
  (forall kv, In kv (interests Session.indifferent) -> snd kv = 0%Z) /\
  (forall x, In x Sample.catalog ->
             exists q, composite_score x Session.indifferent = Ok q /\ q == 0) /\
  main_match Sample.catalog Session.indifferent = Ok (Some Sample.kyoto).
Proof.
  assert (Hz : forall kv, In kv (interests Session.indifferent) -> snd kv = 0%Z).
  { intros kv H. simpl in H.
    repeat (destruct H as [<- | H]; [reflexivity|]). destruct H. }
  split; [reflexivity|]. split; [reflexivity|]. split; [exact Hz|].
  apply (indifferent_user_gets_first_candidate Sample.catalog Session.indifferent
           [] Sample.kyoto [Sample.hanoi; Sample.denver; Sample.cairo]);
    try reflexivity; [exact Hz | intros x []].
Defined.

(** X15: when a second entry passes the filters and the current match or
    that entry has no factor for one of the chosen seasons, the loop raises
    the lookup error; a record with a missing factor is only harmless as
    long as no score has to be computed. *)
Theorem missing_season_factor_raises (r : Responses)
  (l1 : list Destination) (a : Destination) (l2 : list Destination)
  (b : Destination) (l3 : list Destination) (s : string) :
  In s (season r) ->
  get_season_factor a (lower s) = None \/ get_season_factor b (lower s) = None ->
  (forall x, In x (l1 ++ l2) -> is_eligible x r = Ok false) ->
  passes a r -> passes b r ->
  main_match (l1 ++ a :: l2 ++ b :: l3) r = Raise LookupKeyError.
Proof.
  intros Hs Hmiss Hskip Pa Pb.
  rewrite (main_match_until_second r l1 a l2 b l3 Hskip Pa Pb).
  unfold challenge, season_score.
  pose proof (py_max_cases (fun x => get_season_factor a (lower x)) (season r))
    as Ca.
  pose proof (py_max_cases (fun x => get_season_factor b (lower x)) (season r))
    as Cb.
  cbv beta in Ca, Cb.
  destruct Ca as [[E _] | [[_ ->] | (_ & Ha & qa & -> & _)]].
  - rewrite E in Hs. destruct Hs.
  - reflexivity.
  - cbn [bind].
    destruct Cb as [[E _] | [[_ ->] | (_ & Hb & _)]].
    + rewrite E in Hs. destruct Hs.
    + reflexivity.
    + destruct (Ha s Hs) as [va Hva]. destruct (Hb s Hs) as [vb Hvb].
      destruct Hmiss; congruence.
Qed.

Lemma missing_season_factor_raises_witness :
  In "Spring" (season Session.europe_trip) /\
  get_season_factor Session.bergen (lower "Spring") = None /\
  passes Session.oslo Session.europe_trip /\
  passes Session.bergen Session.europe_trip /\
  main_match ([Sample.kyoto] ++ Session.oslo :: [] ++ Session.bergen :: [])
             Session.europe_trip = Raise LookupKeyError.
Proof.
  split; [now left|]. split; [reflexivity|].
  split; [reflexivity|]. split; [reflexivity|].
  apply (missing_season_factor_raises Session.europe_trip [Sample.kyoto]
           Session.oslo [] Session.bergen [] "Spring");
    try reflexivity; [now left | now right |].
  intros x [<- | []]. reflexivity.
Defined.
